(** * ThumbnailGenerator: a shallow embedding of [src/index.js]

    The class wraps an external media engine (fluent-ffmpeg), lodash's
    [_.assignIn], bluebird promises and the [del] utility.  The embedding
    keeps what the class itself does: it reads option objects, merges them
    over per-call defaults, builds the engine's arguments, and turns the
    engine's notifications into one settled promise.

    - JavaScript values are an inductive type; objects live in a heap of
      cells addressed by location, so that aliasing (the caller's [opts]
      being mutated in place) is visible.
    - Effects are threaded through a state monad over a [world]: the heap,
      the trace of calls made to the collaborators, and two counters.
    - The collaborators are an environment of oracles: what the engine
      emits for a command, what [Date.now()] returns, whether [del.sync]
      or a completion function throws. *)

From Stdlib Require Import ZArith QArith Ascii.
From stdpp Require Import gmap strings list fin_maps pretty.

Open Scope string_scope.
Open Scope list_scope.
Open Scope Z_scope.

(** ** Numbers

    A JavaScript number is NaN, an infinity, or a finite value.  A finite
    value is given by the decimal numeral JavaScript prints for it: [Decimal
    m d] is the number whose digits are those of [m], scaled by [10^-d].
    That numeral lies in the rounding interval of the binary64 value and of
    no other, so comparing two numbers by their numerals, or a number with
    the exactly representable [0] and [100], is comparing the values; and
    [String(n)] is computed from the numeral's digits and exponent as
    ECMAScript's Number::toString prescribes.  The literals of the source
    are [10], [1], [0.75], [180], [4] and [100]. *)

Inductive number :=
  | NaN
  | Infinity (negative : bool)
  | Decimal (m : Z) (d : nat).

Definition num (z : Z) : number := Decimal z 0.

(** [x < y] as the relational operator computes it (false whenever an
    operand is NaN). *)
Definition num_ltb (x y : number) : bool :=
  match x, y with
  | NaN, _ | _, NaN => false
  | Infinity nx, Infinity ny => nx && negb ny
  | Infinity nx, Decimal _ _ => nx
  | Decimal _ _, Infinity ny => negb ny
  | Decimal m1 d1, Decimal m2 d2 => m1 * 10 ^ Z.of_nat d2 <? m2 * 10 ^ Z.of_nat d1
  end.

(** The rational a finite number denotes. *)
Definition num_Q (m : Z) (d : nat) : Q := m # Z.to_pos (10 ^ Z.of_nat d).

(** The order of the extended rationals; NaN is unordered. *)
Definition num_lt (x y : number) : Prop :=
  match x, y with
  | Decimal m1 d1, Decimal m2 d2 => (num_Q m1 d1 < num_Q m2 d2)%Q
  | Infinity true, Decimal _ _ => True
  | Decimal _ _, Infinity false => True
  | Infinity true, Infinity false => True
  | _, _ => False
  end.

Definition num_le (x y : number) : Prop :=
  match x, y with
  | Decimal m1 d1, Decimal m2 d2 => (num_Q m1 d1 <= num_Q m2 d2)%Q
  | Infinity true, Decimal _ _ => True
  | Decimal _ _, Infinity false => True
  | Infinity nx, Infinity ny => nx = true \/ ny = false
  | _, _ => False
  end.

(** A percent inside the closed interval [0,100], and one outside it. *)
Definition percent_in_range (p : number) : Prop :=
  num_le (num 0) p /\ num_le p (num 100).

Definition percent_out_of_range (p : number) : Prop :=
  num_lt p (num 0) \/ num_lt (num 100) p.

(** The decimal digits of a positive integer, and a run of zeros. *)
Definition digits_of (z : Z) : list Ascii.ascii :=
  String.list_ascii_of_string (pretty (Z.abs z)).

Fixpoint drop_zeros (l : list Ascii.ascii) : list Ascii.ascii :=
  match l with
  | "0"%char :: l' => drop_zeros l'
  | _ => l
  end.

Fixpoint zeros (n : nat) : string :=
  match n with
  | O => ""
  | S n' => "0" +:+ zeros n'
  end.

(** Number::toString.  With [s] the digits of the value without trailing
    zeros, [k] their number and [n] the position of the decimal point
    (the value is [0.s * 10^n]): the digits and [n - k] zeros if [k <= n
    <= 21]; the digits with a point after the first [n] if [0 < n <= 21];
    '0.', [-n] zeros and the digits if [-6 < n <= 0]; and otherwise the
    exponent notation, one digit before the point and [e+(n-1)] or
    [e-(1-n)] at the end. *)
Definition num_to_string (x : number) : string :=
  match x with
  | NaN => "NaN"
  | Infinity false => "Infinity"
  | Infinity true => "-Infinity"
  | Decimal m d =>
      if m =? 0 then "0"
      else
        let all := digits_of m in
        let s := rev (drop_zeros (rev all)) in
        let k := Z.of_nat (length s) in
        let n := Z.of_nat (length all) - Z.of_nat d in
        let str := String.string_of_list_ascii in
        (if m <? 0 then "-" else "") +:+
        (if (k <=? n) && (n <=? 21) then str s +:+ zeros (Z.to_nat (n - k))
         else if (0 <? n) && (n <=? 21) then
           str (take (Z.to_nat n) s) +:+ "." +:+ str (drop (Z.to_nat n) s)
         else if (-6 <? n) && (n <=? 0) then "0." +:+ zeros (Z.to_nat (- n)) +:+ str s
         else
           str (take 1 s) +:+
           (match drop 1 s with
            | [] => ""
            | rest => "." +:+ str rest
            end) +:+
           "e" +:+ (if 0 <=? n - 1 then "+" else "-") +:+ pretty (Z.abs (n - 1)))
  end.

(** ** Values and the heap *)

Definition loc := positive.

#[warnings="-register-all"]
Inductive value :=
  | VUndef
  | VNull
  | VBool (b : bool)
  | VNum (n : number)
  | VStr (s : string)
  | VArr (items : list value)
  | VError (name message : string)
  | VRef (l : loc).

(** An object: its own enumerable properties, and whether it can be called
    (a function is an object too).  Objects are plain records, as the
    option objects of the JSDoc are: no accessors, nothing enumerable
    inherited from a prototype. *)
Record cell := Cell {
  c_props : gmap string value;
  c_callable : bool;
}.

(** Arrays and [Error] objects are carried by value: the class builds them
    and hands them on, and never relies on their identity. *)

Definition TypeError (message : string) : value := VError "TypeError" message.

(** ToBoolean. *)
Definition truthy (v : value) : bool :=
  match v with
  | VUndef | VNull => false
  | VBool b => b
  | VNum NaN => false
  | VNum (Infinity _) => true
  | VNum (Decimal m _) => negb (m =? 0)
  | VStr "" => false
  | VStr (String _ _) => true
  | VArr _ | VError _ _ | VRef _ => true
  end.

(** [a || b] on values already computed. *)
Definition js_or (a b : value) : value := if truthy a then a else b.

Definition nullish (v : value) : bool :=
  match v with
  | VUndef | VNull => true
  | _ => false
  end.

Definition join (sep : string) (l : list string) : string :=
  match l with
  | [] => ""
  | s :: l' => fold_left (fun acc t => acc +:+ sep +:+ t) l' s
  end.

(** ** The collaborators

    The engine is driven by a command and answers with notifications; the
    class listens to ['filenames'], ['end'] and ['error'].  The payload of
    ['filenames'] is the array of names fluent-ffmpeg reports; of the
    arguments of ['error'] only the error reaches [reject]. *)

Inductive notification :=
  | Filenames (fns : list value)
  | End
  | Error (err : value).

Inductive command :=
  | Screenshots (settings : gmap string value)
  | Run (inputOptions outputOptions : list string) (output : string).

(** What the class cannot decide itself.  [engine id c] is what the
    [id]-th command object emits once started with [c]; [now k] is the
    [k]-th reading of [Date.now()]; [del_sync paths] and [completion f args]
    are [Some e] when the call throws [e]; [object_to_string l] is
    [String(o)] for the object at [l]. *)
Record env := Env {
  engine : nat -> command -> list notification;
  now : nat -> Z;
  del_sync : list value -> option value;
  completion : loc -> list value -> option value;
  object_to_string : loc -> string;
}.

(** What the collaborators saw, in the order it happened. *)
Inductive event :=
  | NewCommand (id : nat) (source logger : value)
  | Start (id : nat) (c : command)
  | Del (paths : list value) (force : bool)
  | Call (f : loc) (args : list value).

Record world := World {
  heap : gmap loc cell;
  trace : list event;
  clock_reads : nat;
  commands : nat;
}.

(** ** The state monad *)

Definition M (A : Type) : Type := world -> A * world.

#[global] Instance M_ret : MRet M := fun A (a : A) w => (a, w).
#[global] Instance M_bind : MBind M :=
  fun A B (f : A -> M B) (m : M A) w => let '(a, w') := m w in f a w'.

Definition get_heap : M (gmap loc cell) := fun w => (heap w, w).

(** A location without a cell reads as an empty plain object. *)
Definition cell_at (h : gmap loc cell) (l : loc) : cell :=
  default (Cell ∅ false) (h !! l).

Definition alloc (c : cell) : M loc :=
  fun w =>
    let l := fresh (dom (heap w)) in
    (l, World (<[l := c]> (heap w)) (trace w) (clock_reads w) (commands w)).

(** An object literal [{...}]: a fresh cell. *)
Definition new_object (props : gmap string value) : M value :=
  l ← alloc (Cell props false);
  mret (VRef l).

(** The index properties of an array or of a string. *)
Definition index_props (items : list value) : gmap string value :=
  list_to_map (imap (fun i x => (pretty i, x)) items).

Definition chars (s : string) : list value :=
  (fun a => VStr (String a "")) <$> String.list_ascii_of_string s.

(** The enumerable properties of a value, the ones [keysIn] lists. *)
Definition props_of (h : gmap loc cell) (v : value) : gmap string value :=
  match v with
  | VRef l => c_props (cell_at h l)
  | VArr items => index_props items
  | VStr s => index_props (chars s)
  | _ => ∅
  end.

(** [object[key]] for the named options and configuration keys the class
    reads. *)
Definition get_prop (h : gmap loc cell) (object : value) (key : string) : value :=
  default VUndef (props_of h object !! key).

Definition get (object : value) (key : string) : M value :=
  h ← get_heap;
  mret (get_prop h object key).

Definition set_props (l : loc) (f : gmap string value -> gmap string value) : M unit :=
  fun w =>
    let c := cell_at (heap w) l in
    (tt, World (<[l := Cell (f (c_props c)) (c_callable c)]> (heap w))
               (trace w) (clock_reads w) (commands w)).

(** ** lodash's [_.assignIn(object, source)]

    [createAssigner] turns the target into an object with [Object(object)]
    and, for a truthy source, [copyObject] assigns [object[key] =
    source[key]] for every key of [keysIn(source)].  The target is mutated
    in place and returned. *)

(** [Object(v)]: an object is itself; [undefined] and [null] give a new
    empty object, a primitive a new wrapper.  A value carried by value is
    copied into a new object (its identity is not tracked). *)
Definition to_object (v : value) : M loc :=
  match v with
  | VRef l => mret l
  | _ => h ← get_heap; alloc (Cell (props_of h v) false)
  end.

Definition copyObject (source object : gmap string value) : gmap string value :=
  map_fold (fun key newValue acc => <[key := newValue]> acc) object source.

Definition assignIn (object source : value) : M value :=
  l ← to_object object;
  h ← get_heap;
  _ ← (if truthy source then set_props l (copyObject (props_of h source)) else mret tt);
  mret (VRef l).

(** ** Promises

    A promise is pending or settled; settling a settled promise does
    nothing. *)

Inductive promise :=
  | Pending
  | Resolved (v : value)
  | Rejected (e : value).

Definition settle (p now_settled : promise) : promise :=
  match p with
  | Pending => now_settled
  | _ => p
  end.

Inductive outcome (A : Type) :=
  | Return (a : A)
  | Throw (e : value).
Arguments Return {A} a.
Arguments Throw {A} e.

(** ** The class *)

Record generator := Generator {
  sourcePath : value;
  thumbnailPath : value;
  percent : value;
  logger : value;
  fileNameFormat : value;
  tmpDir : value;
  size : value;  (* [this.size]: read by [generate], never assigned by the constructor *)
}.

Section ThumbnailGenerator.

Context (E : env).

(** ToString, the conversion of a template literal's [${...}]. *)
Fixpoint to_string (v : value) : string :=
  match v with
  | VUndef => "undefined"
  | VNull => "null"
  | VBool true => "true"
  | VBool false => "false"
  | VNum n => num_to_string n
  | VStr s => s
  | VArr items => join "," (map (fun x => if nullish x then "" else to_string x) items)
  | VError name "" => name
  | VError "" message => message
  | VError name message => name +:+ ": " +:+ message
  | VRef l => object_to_string E l
  end.

(** [new ThumbnailGenerator(opts)].  Reading a property of [undefined] or
    [null] throws. *)
Definition constructor (h : gmap loc cell) (opts : value) : outcome generator :=
  if nullish opts then Throw (TypeError "Cannot read property 'sourcePath' of undefined")
  else Return {|
    sourcePath := get_prop h opts "sourcePath";
    thumbnailPath := get_prop h opts "thumbnailPath";
    percent := js_or (VStr (to_string (get_prop h opts "percent") +:+ "%")) (VStr "90%");
    logger := js_or (get_prop h opts "logger") VNull;
    fileNameFormat := VStr "%b-thumbnail-%r-%000i";
    tmpDir := js_or (get_prop h opts "tmpDir") (VStr "/tmp");
    size := VUndef;
  |}.

Definition log (e : event) : M unit :=
  fun w => (tt, World (heap w) (trace w ++ [e]) (clock_reads w) (commands w)).

(** [new this.FfmpegCommand({source, logger})]; the result is the number
    of the command object. *)
Definition getFfmpegInstance (g : generator) : M nat :=
  fun w =>
    let id := commands w in
    (id, World (heap w) (trace w ++ [NewCommand id (sourcePath g) (logger g)])
               (clock_reads w) (S id)).

(** [Date.now()]: a time value, an integer of at most sixteen digits, which
    a template literal prints as its decimal numeral. *)
Definition date_now : M Z :=
  fun w =>
    (now E (clock_reads w),
     World (heap w) (trace w) (S (clock_reads w)) (commands w)).

(** What [generate]'s three handlers make of the notifications: the last
    ['filenames'] payload is kept, the first ['end'] or ['error'] settles. *)
Fixpoint generate_events (filenameArray : list value) (p : promise)
    (ns : list notification) : promise :=
  match ns with
  | [] => p
  | Filenames fns :: ns' => generate_events fns p ns'
  | End :: ns' => generate_events filenameArray (settle p (Resolved (VArr filenameArray))) ns'
  | Error e :: ns' => generate_events filenameArray (settle p (Rejected e)) ns'
  end.

Definition defaultSettings (g : generator) : gmap string value :=
  {[ "folder" := thumbnailPath g;
     "count" := VNum (num 10);
     "size" := size g;
     "filename" := fileNameFormat g;
     "logger" := logger g ]}.

(** The first statements of [generate]: the literal, the command object,
    the merge. *)
Definition generate_setup (g : generator) (opts : value) : M (nat * value) :=
  defaults ← new_object (defaultSettings g);
  ffmpeg ← getFfmpegInstance g;
  settings ← assignIn defaults opts;
  mret (ffmpeg, settings).

Definition generate (g : generator) (opts : value) : M promise :=
  '(ffmpeg, settings) ← generate_setup g opts;
  h ← get_heap;
  let command := Screenshots (props_of h settings) in
  _ ← log (Start ffmpeg command);
  mret (generate_events [] Pending (engine E ffmpeg command)).

(** [result.pop()] in the [then] of [generateOneByPercent]; [generate]
    resolves with arrays only. *)
Definition pop (result : value) : outcome value :=
  match result with
  | VArr items => Return (default VUndef (last items))
  | _ => Throw (TypeError "result.pop is not a function")
  end.

Definition then_pop (p : promise) : promise :=
  match p with
  | Resolved result =>
      match pop result with
      | Return v => Resolved v
      | Throw e => Rejected e
      end
  | _ => p
  end.

(** The literal [{count: 1, timestamps: [`${percent}%`]}]. *)
Definition one_timestamp (percent : number) : gmap string value :=
  {[ "count" := VNum (num 1);
     "timestamps" := VArr [VStr (num_to_string percent +:+ "%")] ]}.

(** [percent] is a number, as the JSDoc types it. *)
Definition generateOneByPercent (g : generator) (percent : number) (opts : value) : M promise :=
  if num_ltb percent (num 0) || num_ltb (num 100) percent then
    mret (Rejected (VError "Error" "Percent must be a value from 0-100"))
  else
    source ← new_object (one_timestamp percent);
    merged ← assignIn opts source;
    p ← generate g merged;
    mret (then_pop p).

(** [if (conf.offset) inputOptions.push(`-ss ${conf.offset}`)], and the same
    for [duration]: the statements [generatePalette] and [createGif] share. *)
Definition push_seek (conf : value) (inputOptions : list string) : M (list string) :=
  offset ← get conf "offset";
  let inputOptions :=
    if truthy offset then inputOptions ++ ["-ss " +:+ to_string offset] else inputOptions in
  duration ← get conf "duration";
  let inputOptions :=
    if truthy duration then inputOptions ++ ["-t " +:+ to_string duration] else inputOptions in
  mret inputOptions.

(** [generatePalette]'s handlers: ['end'] resolves with the output path,
    ['error'] rejects; nothing listens to other notifications. *)
Fixpoint palette_events (output : string) (p : promise) (ns : list notification) : promise :=
  match ns with
  | [] => p
  | Filenames _ :: ns' => palette_events output p ns'
  | End :: ns' => palette_events output (settle p (Resolved (VStr output))) ns'
  | Error e :: ns' => palette_events output (settle p (Rejected e)) ns'
  end.

Definition palette_defaultOpts : gmap string value :=
  {[ "videoFilters" := VStr "fps=10,scale=320:-1:flags=lanczos,palettegen" ]}.

Definition palette_setup (g : generator) (opts : value) : M (nat * value) :=
  ffmpeg ← getFfmpegInstance g;
  defaultOpts ← new_object palette_defaultOpts;
  conf ← assignIn defaultOpts opts;
  mret (ffmpeg, conf).

Definition generatePalette (g : generator) (opts : value) : M promise :=
  '(ffmpeg, conf) ← palette_setup g opts;
  let inputOptions := ["-y"] in
  videoFilters ← get conf "videoFilters";
  let outputOptions := ["-vf " +:+ to_string videoFilters] in
  t ← date_now;
  let output := to_string (tmpDir g) +:+ "/palette-" +:+ pretty t +:+ ".png" in
  inputOptions ← push_seek conf inputOptions;
  let command := Run inputOptions outputOptions output in
  _ ← log (Start ffmpeg command);
  mret (palette_events output Pending (engine E ffmpeg command)).

(** [this.del.sync([paletteFilePath], {force: true})]; [Some e] when it
    throws [e]. *)
Definition del (paths : list value) : M (option value) :=
  _ ← log (Del paths true);
  mret (del_sync E paths).

(** [v === true]. *)
Definition is_true (v : value) : bool :=
  match v with
  | VBool true => true
  | _ => false
  end.

(** [createGif]'s handlers.  [complete] deletes the palette when
    [conf.deletePalette === true] and then resolves; when [del.sync] throws,
    the exception leaves [complete] before [resolve] is reached. *)
Fixpoint gif_events (conf paletteFilePath : value) (output : string) (p : promise)
    (ns : list notification) : M promise :=
  match ns with
  | [] => mret p
  | Filenames _ :: ns' => gif_events conf paletteFilePath output p ns'
  | End :: ns' =>
      deletePalette ← get conf "deletePalette";
      thrown ← (if is_true deletePalette then del [paletteFilePath] else mret None);
      match thrown with
      | Some _ => gif_events conf paletteFilePath output p ns'
      | None => gif_events conf paletteFilePath output (settle p (Resolved (VStr output))) ns'
      end
  | Error e :: ns' => gif_events conf paletteFilePath output (settle p (Rejected e)) ns'
  end.

Definition createGif (ffmpeg : nat) (conf : value) (outputOptions : list string)
    (output : string) (paletteFilePath : value) : M promise :=
  inputOptions ← push_seek conf [];
  let outputOptions := ("-i " +:+ to_string paletteFilePath) :: outputOptions in
  let command := Run inputOptions outputOptions output in
  _ ← log (Start ffmpeg command);
  gif_events conf paletteFilePath output Pending (engine E ffmpeg command).

Definition gif_defaultOpts : gmap string value :=
  {[ "fps" := VNum (Decimal 75 2);
     "scale" := VNum (num 180);
     "speedMultiplier" := VNum (num 4);
     "deletePalette" := VBool true ]}.

Definition gif_setup (g : generator) (opts : value) : M (nat * value) :=
  ffmpeg ← getFfmpegInstance g;
  defaultOpts ← new_object gif_defaultOpts;
  conf ← assignIn defaultOpts opts;
  mret (ffmpeg, conf).

Definition generateGif (g : generator) (opts : value) : M promise :=
  '(ffmpeg, conf) ← gif_setup g opts;
  fps ← get conf "fps";
  speedMultiplier ← get conf "speedMultiplier";
  scale ← get conf "scale";
  let outputOptions :=
    ["-filter_complex fps=" +:+ to_string fps +:+ ",setpts=(1/" +:+ to_string speedMultiplier
     +:+ ")*PTS,scale=" +:+ to_string scale +:+ ":-1:flags=lanczos[x];[x][1:v]paletteuse"] in
  fileName ← get conf "fileName";
  outputFileName ←
    (if truthy fileName then mret fileName
     else t ← date_now; mret (VStr ("video-" +:+ pretty t +:+ ".gif")));
  let output := to_string (thumbnailPath g) +:+ "/" +:+ to_string outputFileName in
  palette ← generatePalette g VUndef;
  match palette with
  | Resolved paletteFilePath => createGif ffmpeg conf outputOptions output paletteFilePath
  | _ => mret palette
  end.

(** ** The callback twins

    Each is [op(...).then(result => callback(null, result)).catch(callback)]. *)

(** [f(...args)]; [Some e] when the call throws [e].  Calling what is not
    a function throws a TypeError. *)
Definition call (f : value) (args : list value) : M (option value) :=
  h ← get_heap;
  match f with
  | VRef l =>
      if c_callable (cell_at h l) then
        _ ← log (Call l args);
        mret (completion E l args)
      else mret (Some (TypeError "callback is not a function"))
  | _ => mret (Some (TypeError "callback is not a function"))
  end.

(** The [then]/[catch] chain, once the promise has the state [p]: a
    rejection reaches [catch], and so does an exception of the [then]
    handler. *)
Definition then_callback (callback : value) (p : promise) : M unit :=
  match p with
  | Pending => mret tt
  | Resolved result =>
      thrown ← call callback [VNull; result];
      match thrown with
      | None => mret tt
      | Some e => _ ← call callback [e]; mret tt
      end
  | Rejected e => _ ← call callback [e]; mret tt
  end.

Definition generateOneByPercentCb (g : generator) (percent : number) (opts cb : value) : M unit :=
  let callback := js_or cb opts in
  p ← generateOneByPercent g percent opts;
  then_callback callback p.

Definition generateCb (g : generator) (opts cb : value) : M unit :=
  let callback := js_or cb opts in
  p ← generate g opts;
  then_callback callback p.

Definition generatePaletteCb (g : generator) (opts cb : value) : M unit :=
  let callback := js_or cb opts in
  p ← generatePalette g opts;
  then_callback callback p.

Definition generateGifCb (g : generator) (opts cb : value) : M unit :=
  let callback := js_or cb opts in
  p ← generateGif g opts;
  then_callback callback p.

End ThumbnailGenerator.

(** ** The operations in closed form

    What each operation sends to its collaborators, written without the
    monad; the section on runs proves that the operations compute exactly
    this. *)

(** The first ['end'] or ['error'] of a run of notifications. *)
Fixpoint first_terminal (ns : list notification) : option notification :=
  match ns with
  | [] => None
  | Filenames _ :: ns' => first_terminal ns'
  | n :: _ => Some n
  end.

Fixpoint count_end (ns : list notification) : nat :=
  match ns with
  | [] => O
  | End :: ns' => S (count_end ns')
  | _ :: ns' => count_end ns'
  end.

(** A value the world knows: a reference points to a cell. *)
Definition allocated (h : gmap loc cell) (v : value) : Prop :=
  match v with
  | VRef l => is_Some (h !! l)
  | _ => True
  end.

(** The settings an operation's setup resolves when run in [w]. *)
Definition settings_of (setup : M (nat * value)) (w : world) : gmap string value :=
  let '((_, conf), w') := setup w in props_of (heap w') conf.

(** The calls the [then]/[catch] chain makes to a completion function that
    returns normally. *)
Definition callback_calls (f : loc) (p : promise) : list event :=
  match p with
  | Pending => []
  | Resolved result => [Call f [VNull; result]]
  | Rejected e => [Call f [e]]
  end.

(** The world an operation leaves, after those calls. *)
Definition with_callback (f : loc) (r : promise * world) : world :=
  World (heap r.2) (trace r.2 ++ callback_calls f r.1) (clock_reads r.2) (commands r.2).

Section ClosedForms.

Context (E : env).

Definition generate_settings (g : generator) (h : gmap loc cell) (opts : value) :
    gmap string value :=
  props_of h opts ∪ defaultSettings g.

Definition seek_options (conf : gmap string value) (inputOptions : list string) : list string :=
  let offset := default VUndef (conf !! "offset") in
  let inputOptions :=
    if truthy offset then inputOptions ++ ["-ss " +:+ to_string E offset] else inputOptions in
  let duration := default VUndef (conf !! "duration") in
  if truthy duration then inputOptions ++ ["-t " +:+ to_string E duration] else inputOptions.

Definition palette_settings (h : gmap loc cell) (opts : value) : gmap string value :=
  props_of h opts ∪ palette_defaultOpts.

Definition palette_output (g : generator) (t : Z) : string :=
  to_string E (tmpDir g) +:+ "/palette-" +:+ pretty t +:+ ".png".

Definition palette_command (g : generator) (conf : gmap string value) (t : Z) : command :=
  Run (seek_options conf ["-y"])
      ["-vf " +:+ to_string E (default VUndef (conf !! "videoFilters"))]
      (palette_output g t).

Definition gif_settings (h : gmap loc cell) (opts : value) : gmap string value :=
  props_of h opts ∪ gif_defaultOpts.

Definition gif_outputOptions (conf : gmap string value) : list string :=
  ["-filter_complex fps=" +:+ to_string E (default VUndef (conf !! "fps")) +:+ ",setpts=(1/"
   +:+ to_string E (default VUndef (conf !! "speedMultiplier"))
   +:+ ")*PTS,scale=" +:+ to_string E (default VUndef (conf !! "scale"))
   +:+ ":-1:flags=lanczos[x];[x][1:v]paletteuse"].

(** [generateGif] reads the clock for its file name only when no
    [fileName] is configured; the palette step reads it after that. *)
Definition gif_named (conf : gmap string value) : bool :=
  truthy (default VUndef (conf !! "fileName")).

Definition gif_clock (conf : gmap string value) (k : nat) : nat :=
  if gif_named conf then k else S k.

Definition gif_output (g : generator) (conf : gmap string value) (t : Z) : string :=
  to_string E (thumbnailPath g) +:+ "/" +:+
  to_string E (if gif_named conf then default VUndef (conf !! "fileName")
               else VStr ("video-" +:+ pretty t +:+ ".gif")).

Definition gif_command (g : generator) (conf : gmap string value) (t : Z)
    (paletteFilePath : value) : command :=
  Run (seek_options conf [])
      (("-i " +:+ to_string E paletteFilePath) :: gif_outputOptions conf)
      (gif_output g conf t).

Definition gif_deletes (conf : gmap string value) : bool :=
  is_true (default VUndef (conf !! "deletePalette")).

(** The promise [createGif]'s handlers settle. *)
Fixpoint gif_promise (deletes : bool) (paletteFilePath : value) (output : string)
    (p : promise) (ns : list notification) : promise :=
  match ns with
  | [] => p
  | Filenames _ :: ns' => gif_promise deletes paletteFilePath output p ns'
  | End :: ns' =>
      match (if deletes then del_sync E [paletteFilePath] else None) with
      | Some _ => gif_promise deletes paletteFilePath output p ns'
      | None => gif_promise deletes paletteFilePath output (settle p (Resolved (VStr output))) ns'
      end
  | Error e :: ns' => gif_promise deletes paletteFilePath output (settle p (Rejected e)) ns'
  end.

End ClosedForms.

(** ** A sample world

    An engine that reports two file names and ends, one that fails, and a
    heap with a constructor argument, two option objects and a completion
    function. *)

Definition sample_env : env := {|
  engine := fun _ _ => [Filenames [VStr "a.png"; VStr "b.png"]; End];
  now := fun k => 1700000000000 + Z.of_nat k;
  del_sync := fun _ => None;
  completion := fun _ _ => None;
  object_to_string := fun _ => "[object Object]";
|}.

Definition failing_env : env := {|
  engine := fun _ _ => [Error (VError "Error" "ffmpeg exited with code 1")];
  now := fun k => 1700000000000 + Z.of_nat k;
  del_sync := fun _ => None;
  completion := fun _ _ => None;
  object_to_string := fun _ => "[object Object]";
|}.

Definition sample_heap : gmap loc cell :=
  {[ 1%positive := Cell {[ "sourcePath" := VStr "/videos/in.mp4";
                           "thumbnailPath" := VStr "/out" ]} false;
     2%positive := Cell {[ "count" := VNum (num 7); "folder" := VStr "/elsewhere" ]} false;
     3%positive := Cell ∅ true;
     4%positive := Cell {[ "deletePalette" := VNum (num 1) ]} false ]}.

Definition sample_world : world := World sample_heap [] 0 0.

Definition sample_generator : generator := {|
  sourcePath := VStr "/videos/in.mp4";
  thumbnailPath := VStr "/out";
  percent := VStr "undefined%";
  logger := VNull;
  fileNameFormat := VStr "%b-thumbnail-%r-%000i";
  tmpDir := VStr "/tmp";
  size := VUndef;
|}.

(** ** Further descriptions and sample worlds *)

(** The list [generate]'s [filenameArray] holds after a run of
    notifications: the payload of the last ['filenames'], if any. *)
Fixpoint last_filenames_from (filenameArray : list value) (ns : list notification) :
    list value :=
  match ns with
  | [] => filenameArray
  | Filenames fns :: ns' => last_filenames_from fns ns'
  | _ :: ns' => last_filenames_from filenameArray ns'
  end.

Definition last_filenames (ns : list notification) : list value :=
  last_filenames_from [] ns.

(** [-ss] and [-t], as the caller's options ask for them. *)
Definition seek_arguments (E : env) (offset duration : value) : list string :=
  (if truthy offset then ["-ss " +:+ to_string E offset] else []) ++
  (if truthy duration then ["-t " +:+ to_string E duration] else []).

(** An option of the caller, or else the default. *)
Definition option_or (h : gmap loc cell) (opts : value) (key : string) (default : value) :
    value :=
  match props_of h opts !! key with
  | Some v => v
  | None => default
  end.

(** The palette ends, the gif command fails. *)
Definition gif_failing_env : env := {|
  engine := fun id _ =>
    match id with
    | O => [Error (VError "Error" "gif failed")]
    | _ => [End]
    end;
  now := now sample_env;
  del_sync := del_sync sample_env;
  completion := completion sample_env;
  object_to_string := object_to_string sample_env;
|}.

(** The engine never reports anything. *)
Definition silent_env : env := {|
  engine := fun _ _ => [];
  now := now sample_env;
  del_sync := del_sync sample_env;
  completion := completion sample_env;
  object_to_string := object_to_string sample_env;
|}.

(** [del.sync] throws. *)
Definition del_throwing_env : env := {|
  engine := engine sample_env;
  now := now sample_env;
  del_sync := fun _ => Some (VError "Error" "EPERM: operation not permitted");
  completion := completion sample_env;
  object_to_string := object_to_string sample_env;
|}.

(** The completion function throws when it is handed a result. *)
Definition callback_throwing_env : env := {|
  engine := engine sample_env;
  now := now sample_env;
  del_sync := del_sync sample_env;
  completion := fun _ args =>
    match args with
    | [VNull; _] => Some (VError "Error" "boom")
    | _ => None
    end;
  object_to_string := object_to_string sample_env;
|}.

(** The sample heap with one more option object, for a clip. *)
Definition clip_heap : gmap loc cell :=
  <[5%positive := Cell {[ "offset" := VStr "00:00:05";
                          "duration" := VNum (num 3);
                          "fileName" := VStr "clip.gif" ]} false]> sample_heap.

Definition clip_world : world := World clip_heap [] 0 0.

(** Constructor arguments with a percent: [1e-7] and [0.05]. *)
Definition percent_heap : gmap loc cell :=
  {[ 1%positive := Cell {[ "sourcePath" := VStr "/videos/in.mp4";
                           "percent" := VNum (Decimal 1 7) ]} false;
     2%positive := Cell {[ "percent" := VNum (Decimal 5 2) ]} false ]}.

(** Whether a value can be called. *)
Definition is_function (h : gmap loc cell) (v : value) : bool :=
  match v with
  | VRef l => c_callable (cell_at h l)
  | _ => false
  end.

(** * Properties *)

(** ** Numbers *)

Lemma pow10_pos (d : nat) : 0 < 10 ^ Z.of_nat d.
Proof. apply Z.pow_pos_nonneg; lia. Qed.

Lemma num_Q_lt m1 d1 m2 d2 :
  (num_Q m1 d1 < num_Q m2 d2)%Q <-> m1 * 10 ^ Z.of_nat d2 < m2 * 10 ^ Z.of_nat d1.
Proof.
  unfold num_Q, Qlt; simpl.
  rewrite !Z2Pos.id by apply pow10_pos. reflexivity.
Qed.

Lemma num_Q_le m1 d1 m2 d2 :
  (num_Q m1 d1 <= num_Q m2 d2)%Q <-> m1 * 10 ^ Z.of_nat d2 <= m2 * 10 ^ Z.of_nat d1.
Proof.
  unfold num_Q, Qle; simpl.
  rewrite !Z2Pos.id by apply pow10_pos. reflexivity.
Qed.

(** The relational operator decides the order. *)
Lemma num_ltb_lt x y : num_ltb x y = true <-> num_lt x y.
Proof.
  destruct x as [|[]|m1 d1], y as [|[]|m2 d2]; simpl; try (split; (done || discriminate)).
  rewrite num_Q_lt. apply Z.ltb_lt.
Qed.

Lemma num_le_not_lt x y : num_le x y -> num_ltb y x = false.
Proof.
  destruct x as [|[]|m1 d1], y as [|[]|m2 d2]; simpl; try done.
  - intros [|]; discriminate.
  - rewrite num_Q_le. intros H. apply Z.ltb_ge. lia.
Qed.

Lemma guard_out_of_range p :
  percent_out_of_range p -> num_ltb p (num 0) || num_ltb (num 100) p = true.
Proof.
  intros [H|H]; apply num_ltb_lt in H; rewrite H; [done | apply orb_true_r].
Qed.

Lemma guard_in_range p :
  percent_in_range p -> num_ltb p (num 0) || num_ltb (num 100) p = false.
Proof.
  intros [H0 H100].
  by rewrite (num_le_not_lt _ _ H0), (num_le_not_lt _ _ H100).
Qed.

(** Number::toString on integers, fractions, and on both sides of the two
    thresholds of the exponent notation, [1e-6] and [1e21]. *)
Example num_to_string_values :
  num_to_string <$>
    [num 0; num 100; num (-7); num 180; Decimal 100 2;
     Decimal 75 2; Decimal 5 2; Decimal 125 1; Decimal 995 1; Decimal 1050 3;
     Decimal (-5) 1; Decimal 123456789 4; Decimal 30000000000000004 17;
     Decimal 1 6; Decimal 1 7; Decimal 15 8; Decimal (-15) 8;
     num (10 ^ 20); num (10 ^ 21); num (123 * 10 ^ 21)]
  = ["0"; "100"; "-7"; "180"; "1";
     "0.75"; "0.05"; "12.5"; "99.5"; "1.05";
     "-0.5"; "12345.6789"; "0.30000000000000004";
     "0.000001"; "1e-7"; "1.5e-7"; "-1.5e-7";
     "100000000000000000000"; "1e+21"; "1.23e+23"].
Proof. vm_compute. reflexivity. Qed.

(** NaN is neither inside nor outside the interval, and passes the guard. *)
Lemma guard_NaN : num_ltb NaN (num 0) || num_ltb (num 100) NaN = false.
Proof. reflexivity. Qed.

(** ** The heap and [_.assignIn] *)

Lemma copyObject_union (source object : gmap string value) :
  copyObject source object = source ∪ object.
Proof.
  unfold copyObject. induction source as [|key v source Hkey Hfold IH] using map_first_key_ind.
  - by rewrite map_fold_empty, (left_id_L ∅ (∪)).
  - rewrite map_fold_insert_first_key by done.
    by rewrite IH, insert_union_l.
Qed.

Lemma lookup_fresh (h : gmap loc cell) : h !! fresh (dom h) = None.
Proof. apply not_elem_of_dom, is_fresh. Qed.

Lemma falsy_props h v : truthy v = false -> props_of h v = ∅.
Proof. by destruct v as [| |?|?|[|? ?]|?|? ?|?]. Qed.

(** A cell that can be called is allocated, and an allocation leaves it
    alone. *)
Lemma callable_insert_fresh h c l :
  c_callable (cell_at h l) = true ->
  c_callable (cell_at (<[fresh (dom h) := c]> h) l) = true.
Proof.
  intros Hl. unfold cell_at. rewrite lookup_insert_ne; [done|].
  intros Heq. rewrite <- Heq in Hl. unfold cell_at in Hl.
  by rewrite lookup_fresh in Hl.
Qed.

Lemma props_of_insert_fresh h c v :
  allocated h v -> props_of (<[fresh (dom h) := c]> h) v = props_of h v.
Proof.
  destruct v as [| | | | | | |l]; try done. intros [c' Hl]; cbn. unfold cell_at.
  rewrite lookup_insert_ne; [done|].
  intros Heq. rewrite <- Heq in Hl. by rewrite lookup_fresh in Hl.
Qed.

Lemma allocated_insert h l c v : allocated h v -> allocated (<[l := c]> h) v.
Proof.
  destruct v as [| | | | | | |l']; try done. cbn. intros Hl.
  destruct (decide (l = l')) as [->|Hne].
  - rewrite lookup_insert_eq. eauto.
  - by rewrite lookup_insert_ne.
Qed.

(** Merging into a fresh literal: whatever [opts] is, the literal ends up
    holding [opts]'s properties over its own. *)
Lemma assignIn_fresh h t c n defaults opts :
  assignIn (VRef (fresh (dom h))) opts
    (World (<[fresh (dom h) := Cell defaults false]> h) t c n) =
  (VRef (fresh (dom h)),
   World (<[fresh (dom h) := Cell (props_of h opts ∪ defaults) false]> h) t c n).
Proof.
  unfold assignIn, mbind, M_bind, mret, M_ret, to_object, get_heap, set_props; cbn.
  destruct (truthy opts) eqn:Ht; cbn.
  - unfold cell_at at 1 2. rewrite lookup_insert_eq; cbn.
    rewrite insert_insert_eq, copyObject_union. do 3 f_equal.
    destruct opts; try done. cbn. unfold cell_at.
    destruct (decide (l = fresh (dom h))) as [->|Hne].
    + rewrite lookup_insert_eq, lookup_fresh; cbn.
      by rewrite (left_id_L ∅ (∪)), (idemp_L (∪)).
    + by rewrite lookup_insert_ne.
  - by rewrite (falsy_props h opts Ht), (left_id_L ∅ (∪)).
Qed.

#[local] Arguments assignIn : simpl never.

(** ** Runs: the operations in closed form *)

Section Runs.

Context (E : env).

Lemma get_run object key w : get object key w = (get_prop (heap w) object key, w).
Proof. reflexivity. Qed.

Lemma push_seek_run conf inputOptions w :
  push_seek E conf inputOptions w = (seek_options E (props_of (heap w) conf) inputOptions, w).
Proof. reflexivity. Qed.

Lemma del_run paths w :
  del E paths w =
  (del_sync E paths,
   World (heap w) (trace w ++ [Del paths true]) (clock_reads w) (commands w)).
Proof. reflexivity. Qed.

Lemma generate_setup_run g opts w :
  generate_setup g opts w =
  ((commands w, VRef (fresh (dom (heap w)))),
   World (<[fresh (dom (heap w)) := Cell (generate_settings g (heap w) opts) false]> (heap w))
         (trace w ++ [NewCommand (commands w) (sourcePath g) (logger g)])
         (clock_reads w) (S (commands w))).
Proof.
  unfold generate_setup, new_object, alloc, getFfmpegInstance.
  unfold mbind, M_bind, mret, M_ret; cbn.
  by rewrite assignIn_fresh.
Qed.

Lemma palette_setup_run g opts w :
  palette_setup g opts w =
  ((commands w, VRef (fresh (dom (heap w)))),
   World (<[fresh (dom (heap w)) := Cell (palette_settings (heap w) opts) false]> (heap w))
         (trace w ++ [NewCommand (commands w) (sourcePath g) (logger g)])
         (clock_reads w) (S (commands w))).
Proof.
  unfold palette_setup, new_object, alloc, getFfmpegInstance.
  unfold mbind, M_bind, mret, M_ret; cbn.
  by rewrite assignIn_fresh.
Qed.

Lemma gif_setup_run g opts w :
  gif_setup g opts w =
  ((commands w, VRef (fresh (dom (heap w)))),
   World (<[fresh (dom (heap w)) := Cell (gif_settings (heap w) opts) false]> (heap w))
         (trace w ++ [NewCommand (commands w) (sourcePath g) (logger g)])
         (clock_reads w) (S (commands w))).
Proof.
  unfold gif_setup, new_object, alloc, getFfmpegInstance.
  unfold mbind, M_bind, mret, M_ret; cbn.
  by rewrite assignIn_fresh.
Qed.

#[local] Arguments generate_setup : simpl never.
#[local] Arguments palette_setup : simpl never.
#[local] Arguments gif_setup : simpl never.

(** [generate]: one literal allocated, one command object made and started
    with the merged settings. *)
Lemma generate_run g opts w :
  generate E g opts w =
  let settings := generate_settings g (heap w) opts in
  (generate_events [] Pending (engine E (commands w) (Screenshots settings)),
   World (<[fresh (dom (heap w)) := Cell settings false]> (heap w))
         (trace w ++ [NewCommand (commands w) (sourcePath g) (logger g);
                      Start (commands w) (Screenshots settings)])
         (clock_reads w) (S (commands w))).
Proof.
  unfold generate, mbind, M_bind, mret, M_ret.
  rewrite generate_setup_run; cbn.
  unfold cell_at. rewrite lookup_insert_eq; cbn.
  by rewrite <- app_assoc.
Qed.

(** The first half of [generateOneByPercent]: the literal
    [{count: 1, timestamps: [...]}] is assigned into [opts].  An [opts]
    object is the target itself; the merged object holds the literal's
    properties over those of [opts]. *)
Lemma assign_into_opts h t c n source opts :
  ∃ lm h',
    (s ← new_object source; assignIn opts s) (World h t c n) = (VRef lm, World h' t c n)
    ∧ props_of h' (VRef lm) = source ∪ props_of h opts
    ∧ (∀ l cl, opts = VRef l → h !! l = Some cl →
         lm = l ∧ h' !! l = Some (Cell (source ∪ c_props cl) (c_callable cl)))
    ∧ (∀ l, c_callable (cell_at h l) = true → c_callable (cell_at h' l) = true).
Proof.
  set (s := fresh (dom h)).
  set (h1 := <[s := Cell source false]> h).
  assert (Hs : h1 !! s = Some (Cell source false)) by apply lookup_insert_eq.
  assert (Hcall : ∀ l, c_callable (cell_at h l) = true → l ≠ s).
  { intros l Hl Heq. rewrite Heq in Hl. unfold cell_at, s in Hl. by rewrite lookup_fresh in Hl. }
  assert (Hcase : (∃ l, opts = VRef l) ∨ (∀ l, opts ≠ VRef l)).
  { destruct opts; try (by right); left; eauto. }
  destruct Hcase as [[l ->]|Hnot].
  - exists l, (<[l := Cell (source ∪ c_props (cell_at h1 l)) (c_callable (cell_at h1 l))]> h1).
    split_and!.
    + unfold new_object, alloc, assignIn, to_object, get_heap, set_props.
      unfold mbind, M_bind, mret, M_ret; cbn. fold s h1.
      unfold cell_at at 1. rewrite Hs; cbn. by rewrite copyObject_union.
    + cbn. unfold cell_at at 1. rewrite lookup_insert_eq; cbn.
      unfold cell_at, h1. destruct (decide (l = s)) as [Heq|Hne].
      * rewrite Heq, lookup_insert_eq. unfold s. rewrite lookup_fresh; cbn.
        by rewrite (idemp_L (∪)), (right_id_L ∅ (∪)).
      * by rewrite lookup_insert_ne.
    + intros l' cl [= <-] Hl. split; [done|].
      assert (l ≠ s) by (intros Heq; rewrite Heq in Hl; unfold s in Hl; by rewrite lookup_fresh in Hl).
      rewrite lookup_insert_eq. unfold cell_at, h1.
      rewrite lookup_insert_ne by done. by rewrite Hl.
    + intros l' Hl'. specialize (Hcall l' Hl').
      unfold cell_at. destruct (decide (l' = l)) as [Heq|Hne].
      * rewrite <- Heq, lookup_insert_eq; cbn. unfold cell_at, h1.
        by rewrite lookup_insert_ne.
      * rewrite lookup_insert_ne by done. unfold h1. by rewrite lookup_insert_ne.
  - set (lm := fresh (dom h1)).
    assert (Hlm : lm ≠ s).
    { intros Heq. pose proof (lookup_fresh h1) as Hf. fold lm in Hf. congruence. }
    assert (Hp : props_of h1 opts = props_of h opts).
    { destruct opts; try done. by destruct (Hnot l). }
    exists lm, (<[lm := Cell (source ∪ props_of h opts) false]> h1).
    split_and!.
    + unfold new_object, alloc, assignIn, to_object, get_heap, set_props.
      unfold mbind, M_bind, mret, M_ret.
      destruct opts; cbn; fold s h1 lm;
        try (unfold cell_at; rewrite ?lookup_insert_eq, ?lookup_insert_ne, ?Hs by done; cbn;
             rewrite insert_insert_eq, copyObject_union; reflexivity).
      by destruct (Hnot l).
    + cbn. unfold cell_at. by rewrite lookup_insert_eq.
    + intros l cl ->. by destruct (Hnot l).
    + intros l' Hl'. specialize (Hcall l' Hl').
      assert (l' ≠ lm).
      { intros Heq. rewrite Heq in Hl'. unfold cell_at in Hl'.
        pose proof (lookup_fresh h1) as Hf. fold lm in Hf. unfold h1 in Hf.
        rewrite lookup_insert_ne in Hf by done. by rewrite Hf in Hl'. }
      unfold cell_at. rewrite lookup_insert_ne by done. unfold h1.
      by rewrite lookup_insert_ne.
Qed.

Lemma generatePalette_run g opts w :
  generatePalette E g opts w =
  let conf := palette_settings (heap w) opts in
  let t := now E (clock_reads w) in
  let command := palette_command E g conf t in
  (palette_events (palette_output E g t) Pending (engine E (commands w) command),
   World (<[fresh (dom (heap w)) := Cell conf false]> (heap w))
         (trace w ++ [NewCommand (commands w) (sourcePath g) (logger g);
                      Start (commands w) command])
         (S (clock_reads w)) (S (commands w))).
Proof.
  unfold generatePalette, mbind, M_bind, mret, M_ret.
  rewrite palette_setup_run; cbn.
  rewrite get_run, push_seek_run; cbn.
  unfold get_prop; cbn. unfold cell_at. rewrite lookup_insert_eq; cbn.
  by rewrite <- app_assoc.
Qed.

#[local] Arguments generatePalette : simpl never.

Lemma gif_events_run conf paletteFilePath output ns : ∀ p w,
  gif_events E conf paletteFilePath output p ns w =
  let deletes := is_true (get_prop (heap w) conf "deletePalette") in
  (gif_promise E deletes paletteFilePath output p ns,
   World (heap w)
         (trace w ++ replicate (if deletes then count_end ns else O) (Del [paletteFilePath] true))
         (clock_reads w) (commands w)).
Proof.
  induction ns as [|[fns| |e] ns IH]; intros p w; cbn.
  - destruct w; cbn. destruct (is_true _); cbn; by rewrite app_nil_r.
  - apply IH.
  - unfold mbind, M_bind at 1. rewrite get_run.
    destruct (is_true (get_prop (heap w) conf "deletePalette")) eqn:Hd; cbn.
    + unfold M_bind. rewrite del_run.
      destruct (del_sync E [paletteFilePath]); rewrite IH; cbn; rewrite Hd;
        by rewrite <- app_assoc.
    + unfold M_bind, mret, M_ret. rewrite IH; cbn. by rewrite Hd.
  - apply IH.
Qed.

Lemma palette_settings_none h : palette_settings h VUndef = palette_defaultOpts.
Proof. unfold palette_settings; cbn. by rewrite (left_id_L ∅ (∪)). Qed.

(** [generateGif]: its own command object first, then the whole palette
    step; the gif command is started only once the palette promise has
    resolved. *)
Lemma generateGif_run g opts w :
  generateGif E g opts w =
  let n := commands w in
  let conf := gif_settings (heap w) opts in
  let h1 := <[fresh (dom (heap w)) := Cell conf false]> (heap w) in
  let k1 := gif_clock conf (clock_reads w) in
  let output := gif_output E g conf (now E (clock_reads w)) in
  let palette := palette_command E g palette_defaultOpts (now E k1) in
  let h2 := <[fresh (dom h1) := Cell palette_defaultOpts false]> h1 in
  let t2 := trace w ++ [NewCommand n (sourcePath g) (logger g);
                        NewCommand (S n) (sourcePath g) (logger g);
                        Start (S n) palette] in
  match palette_events (palette_output E g (now E k1)) Pending (engine E (S n) palette) with
  | Resolved paletteFilePath =>
      let gif := gif_command E g conf (now E (clock_reads w)) paletteFilePath in
      (gif_promise E (gif_deletes conf) paletteFilePath output Pending (engine E n gif),
       World h2
             (t2 ++ Start n gif ::
                    replicate (if gif_deletes conf then count_end (engine E n gif) else O)
                              (Del [paletteFilePath] true))
             (S k1) (S (S n)))
  | p => (p, World h2 t2 (S k1) (S (S n)))
  end.
Proof.
  unfold generateGif, mbind, M_bind, mret, M_ret.
  rewrite gif_setup_run; cbn.
  rewrite !get_run; cbn.
  set (d := fresh (dom (heap w))).
  set (conf := gif_settings (heap w) opts).
  set (h1 := <[d := Cell conf false]> (heap w)).
  assert (Hd : ∀ c', cell_at (<[fresh (dom h1) := c']> h1) d = Cell conf false).
  { intros c'. unfold cell_at.
    rewrite lookup_insert_ne; [unfold h1; by rewrite lookup_insert_eq|].
    intros Heq. pose proof (lookup_fresh h1) as Hf. rewrite Heq in Hf.
    unfold h1 in Hf. by rewrite lookup_insert_eq in Hf. }
  assert (Hd1 : ∀ key, get_prop h1 (VRef d) key = default VUndef (conf !! key)).
  { intros key. unfold get_prop, props_of, cell_at, h1. by rewrite lookup_insert_eq. }
  rewrite !Hd1. unfold gif_output, gif_clock, gif_named.
  destruct (truthy (default VUndef (conf !! "fileName"))) eqn:Hname; cbn;
    rewrite generatePalette_run, palette_settings_none; cbn; fold h1;
    (destruct (palette_events _ _ _) as [|path|e]; cbn;
     [by rewrite <- !app_assoc| |by rewrite <- !app_assoc]);
    unfold createGif, mbind, M_bind, mret, M_ret;
    rewrite push_seek_run; cbn; rewrite gif_events_run; cbn;
    unfold gif_command, gif_deletes, gif_output, gif_named, gif_outputOptions, get_prop;
    cbn; rewrite ?Hname, !Hd; cbn;
    by rewrite <- !app_assoc.
Qed.

(** ** Notifications *)

Lemma settled_generate_events p fns ns :
  p ≠ Pending → generate_events fns p ns = p.
Proof.
  revert fns p. induction ns as [|[fns'| |e] ns IH]; intros fns p Hp; cbn; [done|auto| |];
    rewrite IH; by destruct p.
Qed.

(** The batch resolves with the last list reported before the first
    ['end']. *)
Lemma generate_events_filenames pre fns post :
  first_terminal pre = None →
  ∀ fns0, generate_events fns0 Pending (pre ++ Filenames fns :: End :: post)
          = Resolved (VArr fns).
Proof.
  induction pre as [|[fns'| |e] pre IH]; intros Hpre fns0; cbn in *; try done.
  - by apply settled_generate_events.
  - by apply IH.
Qed.

Lemma settled_palette_events output p ns :
  p ≠ Pending → palette_events output p ns = p.
Proof.
  revert p. induction ns as [|[fns'| |e] ns IH]; intros p Hp; cbn; [done|auto| |];
    rewrite IH; by destruct p.
Qed.

Lemma palette_events_first output ns :
  palette_events output Pending ns =
  match first_terminal ns with
  | Some End => Resolved (VStr output)
  | Some (Error e) => Rejected e
  | _ => Pending
  end.
Proof.
  induction ns as [|[fns'| |e] ns IH]; cbn; [done|done| |];
    by apply settled_palette_events.
Qed.

Lemma settled_gif_promise deletes path output p ns :
  p ≠ Pending → gif_promise E deletes path output p ns = p.
Proof.
  revert p. induction ns as [|[fns'| |e] ns IH]; intros p Hp; cbn; [done|auto| |].
  - destruct (if deletes then _ else _); rewrite IH; by destruct p.
  - rewrite IH; by destruct p.
Qed.

Lemma first_terminal_end_count ns : first_terminal ns = Some End → (0 < count_end ns)%nat.
Proof.
  induction ns as [|[fns'| |e] ns IH]; cbn; [done|auto|lia|done].
Qed.

(** When [del.sync] does not throw, the first ['end'] resolves the gif. *)
Lemma gif_promise_first deletes path output ns :
  (deletes = true → del_sync E [path] = None) →
  gif_promise E deletes path output Pending ns =
  match first_terminal ns with
  | Some End => Resolved (VStr output)
  | Some (Error e) => Rejected e
  | _ => Pending
  end.
Proof.
  intros Hdel. induction ns as [|[fns'| |e] ns IH]; cbn; [done|done| |].
  - destruct deletes; [rewrite Hdel by done|]; by apply settled_gif_promise.
  - by apply settled_gif_promise.
Qed.

End Runs.

(** ** The operations *)

Section Operations.

Context (E : env).

#[local] Arguments generate : simpl never.

(** C1.  A percent below 0 or above 100 makes [generateOneByPercent] fail
    with the error 'Percent must be a value from 0-100', and the world is
    left exactly as it was: no command object is made, nothing is started,
    nothing is allocated. *)
Theorem generateOneByPercent_out_of_range g p opts w :
  percent_out_of_range p →
  generateOneByPercent E g p opts w =
  (Rejected (VError "Error" "Percent must be a value from 0-100"), w).
Proof.
  intros Hp. unfold generateOneByPercent.
  by rewrite (guard_out_of_range p Hp).
Qed.

Lemma one_timestamp_count p : one_timestamp p !! "count" = Some (VNum (num 1)).
Proof. unfold one_timestamp. by simplify_map_eq. Qed.

Lemma one_timestamp_timestamps p :
  one_timestamp p !! "timestamps" = Some (VArr [VStr (num_to_string p +:+ "%")]).
Proof. unfold one_timestamp. by simplify_map_eq. Qed.

(** [generateOneByPercent] for a percent that passes the guard. *)
Lemma generateOneByPercent_run g p opts w :
  num_ltb p (num 0) || num_ltb (num 100) p = false →
  ∃ merged w1,
    (s ← new_object (one_timestamp p); assignIn opts s) w = (merged, w1)
    ∧ generateOneByPercent E g p opts w =
      (then_pop (generate E g merged w1).1, (generate E g merged w1).2).
Proof.
  intros Hguard. unfold generateOneByPercent. rewrite Hguard.
  destruct ((s ← new_object _; assignIn opts s) w) as [merged w1] eqn:Hmerge.
  exists merged, w1. split; [done|].
  unfold mbind, M_bind, mret, M_ret in *. cbn in *.
  destruct (new_object _ w) as [s w0]. rewrite Hmerge.
  by destruct (generate E g merged w1).
Qed.

(** C2.  For a percent in [0,100], [generateOneByPercent] makes one command
    object and starts it once, with settings in which [count] is 1 and
    [timestamps] is the one string '<percent>%'; it is [generate] run on
    the merged options, and it resolves with the last of the file names
    [generate] resolves with. *)
Theorem generateOneByPercent_in_range g p opts w :
  percent_in_range p →
  ∃ settings merged w1,
    (generateOneByPercent E g p opts w).2 = (generate E g merged w1).2
    ∧ trace (generateOneByPercent E g p opts w).2 =
      trace w ++ [NewCommand (commands w) (sourcePath g) (logger g);
                  Start (commands w) (Screenshots settings)]
    ∧ settings !! "count" = Some (VNum (num 1))
    ∧ settings !! "timestamps" = Some (VArr [VStr (num_to_string p +:+ "%")])
    ∧ (generate E g merged w1).1 =
      generate_events [] Pending (engine E (commands w) (Screenshots settings))
    ∧ (∀ fns, (generate E g merged w1).1 = Resolved (VArr fns) →
         (generateOneByPercent E g p opts w).1 = Resolved (default VUndef (last fns)))
    ∧ (∀ pre fns post,
         engine E (commands w) (Screenshots settings) = pre ++ Filenames fns :: End :: post →
         first_terminal pre = None →
         (generateOneByPercent E g p opts w).1 = Resolved (default VUndef (last fns))).
Proof.
  intros Hp.
  destruct (generateOneByPercent_run g p opts w (guard_in_range p Hp))
    as (merged & w1 & Hmerge & ->).
  destruct w as [h t c n].
  destruct (assign_into_opts h t c n (one_timestamp p) opts) as (lm & h' & Hrun & Hprops & _).
  rewrite Hrun in Hmerge. injection Hmerge as <- <-.
  exists (generate_settings g h' (VRef lm)), (VRef lm), (World h' t c n).
  rewrite generate_run; cbn.
  assert (Hcount : generate_settings g h' (VRef lm) !! "count" = Some (VNum (num 1))).
  { unfold generate_settings. rewrite Hprops.
    do 2 (erewrite lookup_union_Some_l; [done|]). apply one_timestamp_count. }
  assert (Hstamps : generate_settings g h' (VRef lm) !! "timestamps"
                    = Some (VArr [VStr (num_to_string p +:+ "%")])).
  { unfold generate_settings. rewrite Hprops.
    do 2 (erewrite lookup_union_Some_l; [done|]). apply one_timestamp_timestamps. }
  split_and!; try done.
  - by intros fns ->.
  - intros pre fns post -> Hpre.
    by rewrite generate_events_filenames.
Qed.

(** C9.  With a percent in [0,100], the caller's own [opts] object is what
    [generateOneByPercent] assigns into: afterwards it holds [count = 1]
    and [timestamps = ['<percent>%']], whatever it held under those keys
    before, and its other properties are as they were. *)
Theorem generateOneByPercent_mutates_opts g p l c w :
  percent_in_range p →
  heap w !! l = Some c →
  heap (generateOneByPercent E g p (VRef l) w).2 !! l =
  Some (Cell (<["count" := VNum (num 1)]>
               (<["timestamps" := VArr [VStr (num_to_string p +:+ "%")]]> (c_props c)))
             (c_callable c)).
Proof.
  intros Hp Hl.
  destruct (generateOneByPercent_run g p (VRef l) w (guard_in_range p Hp))
    as (merged & w1 & Hmerge & ->).
  destruct w as [h t k n]; cbn in Hl.
  destruct (assign_into_opts h t k n (one_timestamp p) (VRef l)) as (lm & h' & Hrun & _ & Hin & _).
  rewrite Hrun in Hmerge. injection Hmerge as <- <-.
  destruct (Hin l c eq_refl Hl) as [-> Hl'].
  rewrite generate_run; cbn.
  rewrite lookup_insert_ne.
  - rewrite Hl'. do 2 f_equal.
    unfold one_timestamp. by rewrite <- insert_union_l, <- insert_union_singleton_l.
  - intros Heq. rewrite <- Heq in Hl'. by rewrite lookup_fresh in Hl'.
Qed.

(** C3.  [generate] without options, on a generator the constructor built:
    the settings given to the engine are the defaults, with [count] 10,
    [folder] the configured thumbnail path and [filename]
    '%b-thumbnail-%r-%000i'; the promise resolves with the list the
    ['filenames'] notification carried, as it was received. *)
Theorem generate_no_options h0 o0 g opts w :
  constructor E h0 o0 = Return g →
  props_of (heap w) opts = ∅ →
  let settings := defaultSettings g in
  trace (generate E g opts w).2 =
    trace w ++ [NewCommand (commands w) (sourcePath g) (logger g);
                Start (commands w) (Screenshots settings)]
  ∧ settings !! "count" = Some (VNum (num 10))
  ∧ settings !! "folder" = Some (get_prop h0 o0 "thumbnailPath")
  ∧ settings !! "filename" = Some (VStr "%b-thumbnail-%r-%000i")
  ∧ (generate E g opts w).1 =
    generate_events [] Pending (engine E (commands w) (Screenshots settings))
  ∧ (∀ pre fns post,
       engine E (commands w) (Screenshots settings) = pre ++ Filenames fns :: End :: post →
       first_terminal pre = None →
       (generate E g opts w).1 = Resolved (VArr fns)).
Proof.
  intros Hg Hopts settings. rewrite generate_run; cbn.
  unfold generate_settings. rewrite Hopts, (left_id_L ∅ (∪)). fold settings.
  unfold constructor in Hg. destruct (nullish o0); [done|].
  injection Hg as <-.
  split_and!; try done.
  intros pre fns post -> Hpre. by apply generate_events_filenames.
Qed.

Lemma seek_options_head conf first rest :
  head (seek_options E conf (first :: rest)) = Some first.
Proof.
  unfold seek_options.
  by destruct (truthy (default VUndef (conf !! "offset"))),
              (truthy (default VUndef (conf !! "duration"))).
Qed.

(** C4.  [generatePalette] without a [videoFilters] option: the command runs
    with '-y' first among the input options and with the one output option
    '-vf fps=10,scale=320:-1:flags=lanczos,palettegen'; its output, which
    is also what the promise resolves with once the engine ends, is
    '<tmpDir>/palette-<Date.now()>.png'. *)
Theorem generatePalette_default_filters g opts w :
  props_of (heap w) opts !! "videoFilters" = None →
  let output := to_string E (tmpDir g) +:+ "/palette-" +:+
                pretty (now E (clock_reads w)) +:+ ".png" in
  ∃ inputOptions,
    let command :=
      Run inputOptions ["-vf fps=10,scale=320:-1:flags=lanczos,palettegen"] output in
    trace (generatePalette E g opts w).2 =
      trace w ++ [NewCommand (commands w) (sourcePath g) (logger g);
                  Start (commands w) command]
    ∧ head inputOptions = Some "-y"
    ∧ (generatePalette E g opts w).1 =
      match first_terminal (engine E (commands w) command) with
      | Some End => Resolved (VStr output)
      | Some (Error e) => Rejected e
      | _ => Pending
      end.
Proof.
  intros Hno output.
  exists (seek_options E (palette_settings (heap w) opts) ["-y"]).
  rewrite generatePalette_run; cbn.
  unfold palette_command, palette_output. fold output.
  assert (Hvf : palette_settings (heap w) opts !! "videoFilters"
                = Some (VStr "fps=10,scale=320:-1:flags=lanczos,palettegen")).
  { unfold palette_settings. by rewrite lookup_union_r. }
  rewrite Hvf; cbn.
  split_and!; [done|apply seek_options_head|apply palette_events_first].
Qed.

Lemma truthy_template s : truthy (VStr (s +:+ "%")) = true.
Proof. by destruct s. Qed.

(** C10.  For every argument of the constructor: [undefined] and [null]
    make it throw before anything is stored; for any other argument the
    [percent] it stores is the string '<opts.percent>%', so 'undefined%'
    when the option is absent.  That string is never falsy, and the '90%'
    to its right is never taken. *)
Theorem constructor_percent h opts :
  match constructor E h opts with
  | Return g =>
      percent g = VStr (to_string E (get_prop h opts "percent") +:+ "%")
      ∧ truthy (VStr (to_string E (get_prop h opts "percent") +:+ "%")) = true
      ∧ (props_of h opts !! "percent" = None → percent g = VStr "undefined%")
  | Throw _ => nullish opts = true
  end.
Proof.
  unfold constructor. destruct (nullish opts); [done|].
  unfold percent, js_or. rewrite truthy_template.
  split_and!; [done..|].
  intros Hnone. unfold get_prop. by rewrite Hnone.
Qed.

Lemma gif_defaultOpts_deletePalette :
  gif_defaultOpts !! "deletePalette" = Some (VBool true).
Proof. reflexivity. Qed.

(** C5, as the code has it.  When the palette step and the gif step both
    end without an error, [del.sync] is called with the palette path if the
    [deletePalette] option is absent or is [true], and is not called at all
    if it is anything else: [false], but also any other value, since the
    test is [conf.deletePalette === true]. *)
Theorem generateGif_deletes_palette g opts w :
  let n := commands w in
  let conf := gif_settings (heap w) opts in
  let t := now E (gif_clock conf (clock_reads w)) in
  let palette := palette_command E g palette_defaultOpts t in
  let palettePath := VStr (palette_output E g t) in
  let gif := gif_command E g conf (now E (clock_reads w)) palettePath in
  first_terminal (engine E (S n) palette) = Some End →
  first_terminal (engine E n gif) = Some End →
  ∃ evs,
    trace (generateGif E g opts w).2 =
      trace w ++ [NewCommand n (sourcePath g) (logger g);
                  NewCommand (S n) (sourcePath g) (logger g);
                  Start (S n) palette; Start n gif] ++ evs
    ∧ match props_of (heap w) opts !! "deletePalette" with
      | None | Some (VBool true) => Del [palettePath] true ∈ evs
      | Some _ => evs = []
      end
    ∧ (del_sync E [palettePath] = None →
       (generateGif E g opts w).1 =
       Resolved (VStr (gif_output E g conf (now E (clock_reads w))))).
Proof.
  intros n conf t palette palettePath gif Hpalette Hgif.
  rewrite generateGif_run; cbn. fold n conf t palette.
  rewrite palette_events_first, Hpalette. fold palettePath gif. cbn.
  exists (replicate (if gif_deletes conf then count_end (engine E n gif) else O)
                    (Del [palettePath] true)).
  split_and!.
  - by rewrite <- app_assoc.
  - pose proof (first_terminal_end_count _ Hgif) as Hcount.
    unfold gif_deletes, conf, gif_settings.
    destruct (props_of (heap w) opts !! "deletePalette") as [v|] eqn:Hv.
    + erewrite lookup_union_Some_l by done; cbn.
      destruct v as [| |[]| | | | |]; cbn; try done.
      apply elem_of_replicate. split; [done|]. intros Hz. rewrite Hz in Hcount. lia.
    + rewrite lookup_union_r, gif_defaultOpts_deletePalette by done. cbn.
      apply elem_of_replicate. split; [done|]. intros Hz. rewrite Hz in Hcount. lia.
  - intros Hdel. rewrite gif_promise_first by done. by rewrite Hgif.
Qed.

(** C6.  When the palette step's first terminal notification is an error,
    [generateGif] is rejected with that error; two command objects were
    made but only the palette's was started, and nothing was deleted. *)
Theorem generateGif_palette_fails g opts w e :
  let n := commands w in
  let conf := gif_settings (heap w) opts in
  let palette :=
    palette_command E g palette_defaultOpts (now E (gif_clock conf (clock_reads w))) in
  first_terminal (engine E (S n) palette) = Some (Error e) →
  (generateGif E g opts w).1 = Rejected e
  ∧ trace (generateGif E g opts w).2 =
    trace w ++ [NewCommand n (sourcePath g) (logger g);
                NewCommand (S n) (sourcePath g) (logger g);
                Start (S n) palette].
Proof.
  intros n conf palette Hpalette.
  rewrite generateGif_run; cbn. fold n conf palette.
  by rewrite palette_events_first, Hpalette.
Qed.

(** ** The callback twins *)

Lemma then_callback_run f p w :
  c_callable (cell_at (heap w) f) = true →
  (∀ args, completion E f args = None) →
  then_callback E (VRef f) p w = (tt, with_callback f (p, w)).
Proof.
  intros Hf Hreturns. unfold then_callback, call, with_callback.
  unfold mbind, M_bind, mret, M_ret, get_heap, log; cbn.
  destruct p as [|result|e]; cbn; rewrite ?Hf; cbn; rewrite ?Hreturns; try done.
  destruct w; cbn. by rewrite app_nil_r.
Qed.

Lemma generate_callable g opts w f :
  c_callable (cell_at (heap w) f) = true →
  c_callable (cell_at (heap (generate E g opts w).2) f) = true.
Proof. intros Hf. rewrite generate_run; cbn. by apply callable_insert_fresh. Qed.

Lemma generateOneByPercent_callable g p opts w f :
  c_callable (cell_at (heap w) f) = true →
  c_callable (cell_at (heap (generateOneByPercent E g p opts w).2) f) = true.
Proof.
  intros Hf.
  destruct (num_ltb p (num 0) || num_ltb (num 100) p) eqn:Hguard.
  - unfold generateOneByPercent. by rewrite Hguard.
  - destruct (generateOneByPercent_run g p opts w Hguard) as (merged & w1 & Hmerge & ->).
    destruct w as [h t c n].
    destruct (assign_into_opts h t c n (one_timestamp p) opts) as (lm & h' & Hrun & _ & _ & Hc).
    rewrite Hrun in Hmerge. injection Hmerge as <- <-.
    apply generate_callable; cbn. by apply Hc.
Qed.

Lemma generatePalette_callable g opts w f :
  c_callable (cell_at (heap w) f) = true →
  c_callable (cell_at (heap (generatePalette E g opts w).2) f) = true.
Proof. intros Hf. rewrite generatePalette_run; cbn. by apply callable_insert_fresh. Qed.

Lemma generateGif_heap g opts w :
  heap (generateGif E g opts w).2 =
  <[fresh (dom (<[fresh (dom (heap w)) := Cell (gif_settings (heap w) opts) false]> (heap w)))
      := Cell palette_defaultOpts false]>
    (<[fresh (dom (heap w)) := Cell (gif_settings (heap w) opts) false]> (heap w)).
Proof. rewrite generateGif_run; cbn. by destruct (palette_events _ _ _). Qed.

Lemma generateGif_callable g opts w f :
  c_callable (cell_at (heap w) f) = true →
  c_callable (cell_at (heap (generateGif E g opts w).2) f) = true.
Proof.
  intros Hf. rewrite generateGif_heap. by do 2 apply callable_insert_fresh.
Qed.

#[local] Arguments generateOneByPercent : simpl never.
#[local] Arguments generateGif : simpl never.
#[local] Arguments then_callback : simpl never.

(** C7, as the code has it.  With a completion function that returns
    normally, each twin calls it once when its operation settles:
    [callback(null, result)] on success and [callback(error)], with the
    error as the only argument, on failure; nothing else changes. *)
Theorem callback_twins g p opts cb f w :
  js_or cb opts = VRef f →
  c_callable (cell_at (heap w) f) = true →
  (∀ args, completion E f args = None) →
  generateOneByPercentCb E g p opts cb w =
    (tt, with_callback f (generateOneByPercent E g p opts w))
  ∧ generateCb E g opts cb w = (tt, with_callback f (generate E g opts w))
  ∧ generatePaletteCb E g opts cb w = (tt, with_callback f (generatePalette E g opts w))
  ∧ generateGifCb E g opts cb w = (tt, with_callback f (generateGif E g opts w))
  ∧ (∀ r, callback_calls f (Resolved r) = [Call f [VNull; r]])
  ∧ (∀ e, callback_calls f (Rejected e) = [Call f [e]]).
Proof.
  intros Hcb Hf Hreturns.
  unfold generateOneByPercentCb, generateCb, generatePaletteCb, generateGifCb.
  rewrite Hcb. unfold mbind, M_bind.
  split_and!; try done.
  - pose proof (generateOneByPercent_callable g p opts w f Hf) as Hf'.
    destruct (generateOneByPercent E g p opts w) as [pr w'].
    by apply then_callback_run.
  - pose proof (generate_callable g opts w f Hf) as Hf'.
    destruct (generate E g opts w) as [pr w'].
    by apply then_callback_run.
  - pose proof (generatePalette_callable g opts w f Hf) as Hf'.
    destruct (generatePalette E g opts w) as [pr w'].
    by apply then_callback_run.
  - pose proof (generateGif_callable g opts w f Hf) as Hf'.
    destruct (generateGif E g opts w) as [pr w'].
    by apply then_callback_run.
Qed.

(** ** Option merging across calls *)

Lemma generate_setup_settings g opts w :
  settings_of (generate_setup g opts) w = props_of (heap w) opts ∪ defaultSettings g.
Proof.
  unfold settings_of. rewrite generate_setup_run; cbn.
  unfold cell_at. by rewrite lookup_insert_eq.
Qed.

Lemma palette_setup_settings g opts w :
  settings_of (palette_setup g opts) w = props_of (heap w) opts ∪ palette_defaultOpts.
Proof.
  unfold settings_of. rewrite palette_setup_run; cbn.
  unfold cell_at. by rewrite lookup_insert_eq.
Qed.

Lemma gif_setup_settings g opts w :
  settings_of (gif_setup g opts) w = props_of (heap w) opts ∪ gif_defaultOpts.
Proof.
  unfold settings_of. rewrite gif_setup_run; cbn.
  unfold cell_at. by rewrite lookup_insert_eq.
Qed.

(** C8.  The defaults are a literal built anew by every call, so what
    [_.assignIn] writes into its first argument never reaches a later call:
    the settings a call resolves for its overrides are the same after an
    earlier call (with these or with any other overrides) as without it. *)
Theorem settings_unchanged_by_earlier_call g earlier opts w :
  allocated (heap w) opts →
  settings_of (generate_setup g opts) (generate E g earlier w).2
    = settings_of (generate_setup g opts) w
  ∧ settings_of (palette_setup g opts) (generatePalette E g earlier w).2
    = settings_of (palette_setup g opts) w
  ∧ settings_of (gif_setup g opts) (generateGif E g earlier w).2
    = settings_of (gif_setup g opts) w.
Proof.
  intros Hopts.
  rewrite !generate_setup_settings, !palette_setup_settings, !gif_setup_settings.
  rewrite generate_run, generatePalette_run, generateGif_heap; cbn.
  rewrite !props_of_insert_fresh; try done.
  by apply allocated_insert.
Qed.

End Operations.

(** ** The sample world, run *)

Lemma generateOneByPercent_out_of_range_sample :
  generateOneByPercent sample_env sample_generator (num 150) (VRef 2%positive) sample_world =
  (Rejected (VError "Error" "Percent must be a value from 0-100"), sample_world).
Proof.
  apply generateOneByPercent_out_of_range.
  right. vm_compute. reflexivity.
Defined.

Lemma generateOneByPercent_in_range_sample :
  (∃ settings,
     trace (generateOneByPercent sample_env sample_generator (Decimal 1 7) (VRef 2%positive)
              sample_world).2 =
       [NewCommand 0 (VStr "/videos/in.mp4") VNull; Start 0 (Screenshots settings)]
     ∧ settings !! "count" = Some (VNum (num 1))
     ∧ settings !! "timestamps" = Some (VArr [VStr "1e-7%"])
     ∧ (generateOneByPercent sample_env sample_generator (Decimal 1 7) (VRef 2%positive)
          sample_world).1 = Resolved (VStr "b.png"))
  ∧ (∃ settings,
       trace (generateOneByPercent sample_env sample_generator (Decimal 5 2) VUndef
                sample_world).2 =
         [NewCommand 0 (VStr "/videos/in.mp4") VNull; Start 0 (Screenshots settings)]
       ∧ settings !! "timestamps" = Some (VArr [VStr "0.05%"]))
  ∧ (∃ settings,
       trace (generateOneByPercent sample_env sample_generator (num 100) VUndef
                sample_world).2 =
         [NewCommand 0 (VStr "/videos/in.mp4") VNull; Start 0 (Screenshots settings)]
       ∧ settings !! "timestamps" = Some (VArr [VStr "100%"])).
Proof.
  split_and!.
  - destruct (generateOneByPercent_in_range sample_env sample_generator (Decimal 1 7)
                (VRef 2%positive) sample_world)
      as (settings & merged & w1 & _ & Htrace & Hcount & Hstamps & _ & _ & Hlast).
    { split; vm_compute; discriminate. }
    exists settings. split_and!; [exact Htrace|exact Hcount|exact Hstamps|].
    apply (Hlast [] [VStr "a.png"; VStr "b.png"] []); reflexivity.
  - destruct (generateOneByPercent_in_range sample_env sample_generator (Decimal 5 2)
                VUndef sample_world)
      as (settings & merged & w1 & _ & Htrace & _ & Hstamps & _).
    { split; vm_compute; discriminate. }
    exists settings. split; [exact Htrace|exact Hstamps].
  - destruct (generateOneByPercent_in_range sample_env sample_generator (num 100)
                VUndef sample_world)
      as (settings & merged & w1 & _ & Htrace & _ & Hstamps & _).
    { split; vm_compute; discriminate. }
    exists settings. split; [exact Htrace|exact Hstamps].
Defined.

Lemma generateOneByPercent_mutates_opts_sample :
  heap (generateOneByPercent sample_env sample_generator (Decimal 5 2) (VRef 2%positive)
          sample_world).2 !! 2%positive =
    Some (Cell {[ "count" := VNum (num 1);
                  "timestamps" := VArr [VStr "0.05%"];
                  "folder" := VStr "/elsewhere" ]} false)
  ∧ heap (generateOneByPercent sample_env sample_generator (Decimal 1 7) (VRef 2%positive)
            sample_world).2 !! 2%positive =
    Some (Cell {[ "count" := VNum (num 1);
                  "timestamps" := VArr [VStr "1e-7%"];
                  "folder" := VStr "/elsewhere" ]} false).
Proof.
  split.
  - rewrite (generateOneByPercent_mutates_opts sample_env sample_generator (Decimal 5 2)
               2%positive
               (Cell {[ "count" := VNum (num 7); "folder" := VStr "/elsewhere" ]} false)).
    + vm_compute. reflexivity.
    + split; vm_compute; discriminate.
    + vm_compute. reflexivity.
  - rewrite (generateOneByPercent_mutates_opts sample_env sample_generator (Decimal 1 7)
               2%positive
               (Cell {[ "count" := VNum (num 7); "folder" := VStr "/elsewhere" ]} false)).
    + vm_compute. reflexivity.
    + split; vm_compute; discriminate.
    + vm_compute. reflexivity.
Defined.

Lemma generate_no_options_sample :
  trace (generate sample_env sample_generator VUndef sample_world).2 =
    [NewCommand 0 (VStr "/videos/in.mp4") VNull;
     Start 0 (Screenshots (defaultSettings sample_generator))]
  ∧ defaultSettings sample_generator !! "count" = Some (VNum (num 10))
  ∧ defaultSettings sample_generator !! "folder" = Some (VStr "/out")
  ∧ defaultSettings sample_generator !! "filename" = Some (VStr "%b-thumbnail-%r-%000i")
  ∧ (generate sample_env sample_generator VUndef sample_world).1 =
    Resolved (VArr [VStr "a.png"; VStr "b.png"]).
Proof.
  destruct (generate_no_options sample_env sample_heap (VRef 1%positive) sample_generator
              VUndef sample_world)
    as (Htrace & Hcount & Hfolder & Hname & _ & Hfns).
  - vm_compute. reflexivity.
  - reflexivity.
  - split_and!; [exact Htrace|exact Hcount|exact Hfolder|exact Hname|].
    apply (Hfns [] [VStr "a.png"; VStr "b.png"] []); reflexivity.
Defined.

Lemma generatePalette_default_filters_sample :
  ∃ inputOptions,
    trace (generatePalette sample_env sample_generator (VRef 2%positive) sample_world).2 =
      [NewCommand 0 (VStr "/videos/in.mp4") VNull;
       Start 0 (Run inputOptions ["-vf fps=10,scale=320:-1:flags=lanczos,palettegen"]
                    "/tmp/palette-1700000000000.png")]
    ∧ head inputOptions = Some "-y"
    ∧ (generatePalette sample_env sample_generator (VRef 2%positive) sample_world).1 =
      Resolved (VStr "/tmp/palette-1700000000000.png").
Proof.
  destruct (generatePalette_default_filters sample_env sample_generator (VRef 2%positive)
              sample_world)
    as (inputOptions & Htrace & Hhead & Hpromise).
  - vm_compute. reflexivity.
  - exists inputOptions. split_and!; [exact Htrace|exact Hhead|exact Hpromise].
Defined.

Lemma constructor_percent_sample :
  (∃ g, constructor sample_env percent_heap (VRef 1%positive) = Return g
     ∧ percent g = VStr "1e-7%")
  ∧ (∃ g, constructor sample_env percent_heap (VRef 2%positive) = Return g
       ∧ percent g = VStr "0.05%")
  ∧ (∃ g, constructor sample_env sample_heap (VRef 1%positive) = Return g
       ∧ percent g = VStr "undefined%")
  ∧ (∃ e, constructor sample_env sample_heap VUndef = Throw e).
Proof.
  split_and!.
  - pose proof (constructor_percent sample_env percent_heap (VRef 1%positive)) as Hp.
    destruct (constructor sample_env percent_heap (VRef 1%positive)) as [g|e] eqn:Hg;
      [|discriminate Hp].
    exists g. split; [reflexivity|]. destruct Hp as (Hp & _ & _). exact Hp.
  - pose proof (constructor_percent sample_env percent_heap (VRef 2%positive)) as Hp.
    destruct (constructor sample_env percent_heap (VRef 2%positive)) as [g|e] eqn:Hg;
      [|discriminate Hp].
    exists g. split; [reflexivity|]. destruct Hp as (Hp & _ & _). exact Hp.
  - pose proof (constructor_percent sample_env sample_heap (VRef 1%positive)) as Hp.
    destruct (constructor sample_env sample_heap (VRef 1%positive)) as [g|e] eqn:Hg;
      [|discriminate Hp].
    exists g. split; [reflexivity|]. destruct Hp as (_ & _ & Hp). apply Hp.
    vm_compute. reflexivity.
  - pose proof (constructor_percent sample_env sample_heap VUndef) as Hp.
    destruct (constructor sample_env sample_heap VUndef) as [g|e] eqn:Hg.
    + discriminate Hg.
    + by exists e.
Defined.

Lemma generateGif_deletes_palette_sample :
  ∃ evs,
    trace (generateGif sample_env sample_generator VUndef sample_world).2 =
      [NewCommand 0 (VStr "/videos/in.mp4") VNull;
       NewCommand 1 (VStr "/videos/in.mp4") VNull;
       Start 1 (Run ["-y"] ["-vf fps=10,scale=320:-1:flags=lanczos,palettegen"]
                    "/tmp/palette-1700000000001.png");
       Start 0 (Run []
                    ["-i /tmp/palette-1700000000001.png";
                     "-filter_complex fps=0.75,setpts=(1/4)*PTS,scale=180:-1:flags=lanczos[x];[x][1:v]paletteuse"]
                    "/out/video-1700000000000.gif")] ++ evs
    ∧ Del [VStr "/tmp/palette-1700000000001.png"] true ∈ evs
    ∧ (generateGif sample_env sample_generator VUndef sample_world).1 =
      Resolved (VStr "/out/video-1700000000000.gif").
Proof.
  destruct (generateGif_deletes_palette sample_env sample_generator VUndef sample_world)
    as (evs & Htrace & Hdel & Hpromise).
  - reflexivity.
  - reflexivity.
  - exists evs. split_and!; [exact Htrace|exact Hdel|by apply Hpromise].
Defined.

Lemma generateGif_palette_fails_sample :
  (generateGif failing_env sample_generator VUndef sample_world).1 =
    Rejected (VError "Error" "ffmpeg exited with code 1")
  ∧ trace (generateGif failing_env sample_generator VUndef sample_world).2 =
    [NewCommand 0 (VStr "/videos/in.mp4") VNull;
     NewCommand 1 (VStr "/videos/in.mp4") VNull;
     Start 1 (Run ["-y"] ["-vf fps=10,scale=320:-1:flags=lanczos,palettegen"]
                  "/tmp/palette-1700000000001.png")].
Proof.
  apply (generateGif_palette_fails failing_env sample_generator VUndef sample_world).
  reflexivity.
Defined.

Lemma callback_twins_sample :
  generateCb sample_env sample_generator (VRef 3%positive) VUndef sample_world =
  (tt, with_callback 3%positive
         (generate sample_env sample_generator (VRef 3%positive) sample_world)).
Proof.
  apply (callback_twins sample_env sample_generator (num 50) (VRef 3%positive) VUndef
           3%positive sample_world); reflexivity.
Defined.

Lemma settings_unchanged_by_earlier_call_sample :
  settings_of (generate_setup sample_generator (VRef 2%positive))
    (generate sample_env sample_generator (VRef 2%positive) sample_world).2
  = settings_of (generate_setup sample_generator (VRef 2%positive)) sample_world.
Proof.
  apply (settings_unchanged_by_earlier_call sample_env sample_generator (VRef 2%positive)
           (VRef 2%positive) sample_world).
  eexists. vm_compute. reflexivity.
Defined.

(** The boundary 0: the timestamp is '0%'. *)
Example generateOneByPercent_zero :
  (generateOneByPercent sample_env sample_generator (num 0) VUndef sample_world).1 =
    Resolved (VStr "b.png")
  ∧ trace (generateOneByPercent sample_env sample_generator (num 0) VUndef sample_world).2 =
    [NewCommand 0 (VStr "/videos/in.mp4") VNull;
     Start 0 (Screenshots (one_timestamp (num 0) ∪ defaultSettings sample_generator))]
  ∧ one_timestamp (num 0) !! "timestamps" = Some (VArr [VStr "0%"]).
Proof. split_and!; vm_compute; reflexivity. Qed.

(** NaN is not ordered against 0 and 100: it passes the guard and
    reaches the engine as 'NaN%'. *)
Example generateOneByPercent_NaN :
  trace (generateOneByPercent sample_env sample_generator NaN VUndef sample_world).2 =
  [NewCommand 0 (VStr "/videos/in.mp4") VNull;
   Start 0 (Screenshots (one_timestamp NaN ∪ defaultSettings sample_generator))]
  ∧ one_timestamp NaN !! "timestamps" = Some (VArr [VStr "NaN%"]).
Proof. split; vm_compute; reflexivity. Qed.

(** C5, as stated, fails: with [deletePalette: 1], a value that is not
    [false], both steps succeed and the palette is not deleted. *)
Lemma generateGif_keeps_palette_for_one :
  get_prop sample_heap (VRef 4%positive) "deletePalette" = VNum (num 1)
  ∧ (generateGif sample_env sample_generator (VRef 4%positive) sample_world).1 =
    Resolved (VStr "/out/video-1700000000000.gif")
  ∧ trace (generateGif sample_env sample_generator (VRef 4%positive) sample_world).2 =
    [NewCommand 0 (VStr "/videos/in.mp4") VNull;
     NewCommand 1 (VStr "/videos/in.mp4") VNull;
     Start 1 (Run ["-y"] ["-vf fps=10,scale=320:-1:flags=lanczos,palettegen"]
                  "/tmp/palette-1700000000001.png");
     Start 0 (Run []
                  ["-i /tmp/palette-1700000000001.png";
                   "-filter_complex fps=0.75,setpts=(1/4)*PTS,scale=180:-1:flags=lanczos[x];[x][1:v]paletteuse"]
                  "/out/video-1700000000000.gif")]
  ∧ Del [VStr "/tmp/palette-1700000000001.png"] true
    ∉ trace (generateGif sample_env sample_generator (VRef 4%positive) sample_world).2.
Proof.
  assert (Htrace :
    trace (generateGif sample_env sample_generator (VRef 4%positive) sample_world).2 =
    [NewCommand 0 (VStr "/videos/in.mp4") VNull;
     NewCommand 1 (VStr "/videos/in.mp4") VNull;
     Start 1 (Run ["-y"] ["-vf fps=10,scale=320:-1:flags=lanczos,palettegen"]
                  "/tmp/palette-1700000000001.png");
     Start 0 (Run []
                  ["-i /tmp/palette-1700000000001.png";
                   "-filter_complex fps=0.75,setpts=(1/4)*PTS,scale=180:-1:flags=lanczos[x];[x][1:v]paletteuse"]
                  "/out/video-1700000000000.gif")])
    by (vm_compute; reflexivity).
  split_and!; [vm_compute; reflexivity..|exact Htrace|].
  rewrite Htrace. intros Hin.
  repeat (apply elem_of_cons in Hin as [Hin|Hin]; [discriminate|]).
  by apply elem_of_nil in Hin.
Qed.

(** C7, as stated, fails: on failure the completion function is called
    with the error alone, not with [(error, null)]. *)
Lemma generateOneByPercentCb_error_alone :
  (generateOneByPercent sample_env sample_generator (num 150) VUndef sample_world).1 =
    Rejected (VError "Error" "Percent must be a value from 0-100")
  ∧ trace (generateOneByPercentCb sample_env sample_generator (num 150) VUndef
             (VRef 3%positive) sample_world).2 =
    [Call 3%positive [VError "Error" "Percent must be a value from 0-100"]]
  ∧ trace (generateOneByPercentCb sample_env sample_generator (num 150) VUndef
             (VRef 3%positive) sample_world).2 ≠
    [Call 3%positive [VError "Error" "Percent must be a value from 0-100"; VNull]].
Proof.
  split_and!; [vm_compute; reflexivity..|].
  vm_compute. discriminate.
Qed.

(** A completion function that throws on success is called a second time,
    with what it threw. *)
Example generateCb_throwing_callback :
  let throwing := {|
    engine := engine sample_env;
    now := now sample_env;
    del_sync := del_sync sample_env;
    completion := fun _ args =>
      match args with
      | [VNull; _] => Some (VError "Error" "boom")
      | _ => None
      end;
    object_to_string := object_to_string sample_env;
  |} in
  drop 2 (trace (generateCb throwing sample_generator VUndef (VRef 3%positive) sample_world).2) =
  [Call 3%positive [VNull; VArr [VStr "a.png"; VStr "b.png"]];
   Call 3%positive [VError "Error" "boom"]].
Proof. vm_compute. reflexivity. Qed.

(** * Further properties of the operations *)

Section MoreOperations.

Context (E : env).

Lemma lookup_override (overrides defaults : gmap string value) key :
  (overrides ∪ defaults) !! key =
  match overrides !! key with
  | Some v => Some v
  | None => defaults !! key
  end.
Proof.
  destruct (overrides !! key) as [v|] eqn:Hkey.
  - by erewrite lookup_union_Some_l.
  - by rewrite lookup_union_r.
Qed.

(** X1.  [generate] sends the engine, key by key, the caller's option where
    [opts] has the key (be its value [undefined]) and the default
    otherwise. *)
Theorem generate_overrides_defaults g opts w :
  ∃ settings,
    trace (generate E g opts w).2 =
      trace w ++ [NewCommand (commands w) (sourcePath g) (logger g);
                  Start (commands w) (Screenshots settings)]
    ∧ ∀ key, settings !! key =
        match props_of (heap w) opts !! key with
        | Some v => Some v
        | None => defaultSettings g !! key
        end.
Proof.
  exists (generate_settings g (heap w) opts).
  rewrite generate_run; cbn. split; [done|].
  intros key. apply lookup_override.
Qed.

Lemma lookup_insert_fresh (h : gmap loc cell) c l c' :
  h !! l = Some c → <[fresh (dom h) := c']> h !! l = Some c.
Proof.
  intros Hl. rewrite lookup_insert_ne; [done|].
  intros Heq. rewrite <- Heq in Hl. by rewrite lookup_fresh in Hl.
Qed.

(** X2.  [generate], [generatePalette] and [generateGif] only allocate:
    every object that existed before the call, the caller's [opts] among
    them, is unchanged after it. *)
Theorem operations_keep_objects g opts w l c :
  heap w !! l = Some c →
  heap (generate E g opts w).2 !! l = Some c
  ∧ heap (generatePalette E g opts w).2 !! l = Some c
  ∧ heap (generateGif E g opts w).2 !! l = Some c.
Proof.
  intros Hl. rewrite generate_run, generatePalette_run, generateGif_heap; cbn.
  split_and!; repeat apply lookup_insert_fresh; done.
Qed.

Lemma generate_events_quiet pre rest :
  first_terminal pre = None →
  ∀ fns p, generate_events fns p (pre ++ rest)
           = generate_events (last_filenames_from fns pre) p rest.
Proof.
  induction pre as [|[fns'| |e] pre IH]; intros Hpre fns p; cbn in *; try done.
  by apply IH.
Qed.

(** X3.  [generate] settles at the first ['end'] or ['error'] and nowhere
    else: an ['end'] resolves with the list of the last ['filenames'] before
    it (the empty list if there was none), an ['error'] rejects with its
    error, whatever the engine emits afterwards; without either the promise
    stays pending. *)
Theorem generate_settles_once g opts w pre post :
  first_terminal pre = None →
  let script := engine E (commands w) (Screenshots (generate_settings g (heap w) opts)) in
  (script = pre ++ End :: post →
     (generate E g opts w).1 = Resolved (VArr (last_filenames pre)))
  ∧ (∀ e, script = pre ++ Error e :: post → (generate E g opts w).1 = Rejected e)
  ∧ (script = pre → (generate E g opts w).1 = Pending).
Proof.
  intros Hpre script. rewrite generate_run; cbn. fold script.
  split_and!.
  - intros ->. rewrite generate_events_quiet by done; cbn.
    by apply settled_generate_events.
  - intros e ->. rewrite generate_events_quiet by done; cbn.
    by apply settled_generate_events.
  - intros ->. rewrite <- (app_nil_r pre). by rewrite generate_events_quiet.
Qed.

Lemma guard_iff_out_of_range p :
  num_ltb p (num 0) || num_ltb (num 100) p = true ↔ percent_out_of_range p.
Proof.
  unfold percent_out_of_range. rewrite orb_true_iff.
  by rewrite !num_ltb_lt.
Qed.

(** What [generateOneByPercent] does once the guard is passed, in closed
    form. *)
Lemma generateOneByPercent_passed g p opts w :
  num_ltb p (num 0) || num_ltb (num 100) p = false →
  ∃ settings h',
    generateOneByPercent E g p opts w =
      (then_pop (generate_events [] Pending
                   (engine E (commands w) (Screenshots settings))),
       World h'
             (trace w ++ [NewCommand (commands w) (sourcePath g) (logger g);
                          Start (commands w) (Screenshots settings)])
             (clock_reads w) (S (commands w)))
    ∧ settings = one_timestamp p ∪ props_of (heap w) opts ∪ defaultSettings g.
Proof.
  intros Hguard.
  destruct (generateOneByPercent_run E g p opts w Hguard) as (merged & w1 & Hmerge & ->).
  destruct w as [h t c n].
  destruct (assign_into_opts h t c n (one_timestamp p) opts) as (lm & h' & Hrun & Hprops & _).
  rewrite Hrun in Hmerge. injection Hmerge as <- <-.
  rewrite generate_run. unfold generate_settings.
  cbn [heap trace clock_reads commands fst snd]. rewrite Hprops.
  by eexists _, _.
Qed.

(** X4.  [generateOneByPercent] fails with the percent error and without a
    trace exactly when the percent is below 0 or above 100; any other
    number, NaN included, reaches the engine. *)
Theorem generateOneByPercent_rejects_iff g p opts w :
  generateOneByPercent E g p opts w =
    (Rejected (VError "Error" "Percent must be a value from 0-100"), w)
  ↔ percent_out_of_range p.
Proof.
  rewrite <- guard_iff_out_of_range. split.
  - intros Hrun.
    destruct (num_ltb p (num 0) || num_ltb (num 100) p) eqn:Hguard; [done|].
    destruct (generateOneByPercent_passed g p opts w Hguard) as (settings & h' & Heq & _).
    rewrite Heq in Hrun. injection Hrun as _ Hw.
    apply (f_equal trace) in Hw; cbn in Hw.
    apply (f_equal length) in Hw. rewrite length_app in Hw. cbn in Hw. lia.
  - intros Hguard. unfold generateOneByPercent. by rewrite Hguard.
Qed.

(** X5.  Apart from [count] and [timestamps], which it forces,
    [generateOneByPercent] hands the caller's options to the engine as
    [generate] does: the caller's value where [opts] has the key, the
    default otherwise. *)
Theorem generateOneByPercent_passes_options g p opts w :
  percent_in_range p →
  ∃ settings,
    trace (generateOneByPercent E g p opts w).2 =
      trace w ++ [NewCommand (commands w) (sourcePath g) (logger g);
                  Start (commands w) (Screenshots settings)]
    ∧ ∀ key, key ≠ "count" → key ≠ "timestamps" →
        settings !! key =
        match props_of (heap w) opts !! key with
        | Some v => Some v
        | None => defaultSettings g !! key
        end.
Proof.
  intros Hp.
  destruct (generateOneByPercent_passed g p opts w (guard_in_range p Hp))
    as (settings & h' & -> & ->).
  eexists; split; [done|].
  intros key Hcount Hstamps.
  rewrite <- (assoc_L (∪)), lookup_union_r.
  - apply lookup_override.
  - unfold one_timestamp. by rewrite lookup_insert_ne, lookup_singleton_ne.
Qed.

Lemma generate_events_first fns ns :
  match first_terminal ns with
  | Some (Error e) => generate_events fns Pending ns = Rejected e
  | Some _ => True
  | None => generate_events fns Pending ns = Pending
  end.
Proof.
  revert fns. induction ns as [|[fns'| |e] ns IH]; intros fns; cbn; try done.
  - apply IH.
  - by apply settled_generate_events.
Qed.

(** X6.  How [generateOneByPercent] settles for a percent in [0,100]: when
    the engine ends without having reported a file name the result is
    [undefined] (the [pop] of an empty array); an engine error is the
    rejection, unchanged; and without ['end'] or ['error'] the promise
    stays pending. *)
Theorem generateOneByPercent_settles g p opts w :
  percent_in_range p →
  let script :=
    engine E (commands w)
           (Screenshots (one_timestamp p ∪ props_of (heap w) opts ∪ defaultSettings g)) in
  (∀ post, script = End :: post →
     (generateOneByPercent E g p opts w).1 = Resolved VUndef)
  ∧ (∀ e, first_terminal script = Some (Error e) →
       (generateOneByPercent E g p opts w).1 = Rejected e)
  ∧ (first_terminal script = None → (generateOneByPercent E g p opts w).1 = Pending).
Proof.
  intros Hp script.
  destruct (generateOneByPercent_passed g p opts w (guard_in_range p Hp))
    as (settings & h' & -> & ->).
  cbn. fold script. split_and!.
  - intros post Hs. rewrite Hs; cbn. by rewrite settled_generate_events.
  - intros e He. pose proof (generate_events_first [] script) as Hfirst.
    rewrite He in Hfirst. by rewrite Hfirst.
  - intros Hnone. pose proof (generate_events_first [] script) as Hfirst.
    rewrite Hnone in Hfirst. by rewrite Hfirst.
Qed.

Lemma seek_options_arguments conf base :
  seek_options E conf base =
  base ++ seek_arguments E (default VUndef (conf !! "offset"))
                           (default VUndef (conf !! "duration")).
Proof.
  unfold seek_options, seek_arguments.
  destruct (truthy (default VUndef (conf !! "offset"))),
           (truthy (default VUndef (conf !! "duration"))); cbn;
    by rewrite <- ?app_assoc, ?app_nil_r.
Qed.

Lemma default_override h opts (defaults : gmap string value) key :
  default VUndef ((props_of h opts ∪ defaults) !! key) =
  option_or h opts key (default VUndef (defaults !! key)).
Proof.
  unfold option_or. rewrite lookup_override.
  by destruct (props_of h opts !! key).
Qed.

Lemma option_or_undefined h opts key : option_or h opts key VUndef = get_prop h opts key.
Proof. unfold option_or, get_prop. by destruct (props_of h opts !! key). Qed.

(** X7.  The command [generatePalette] runs, for any options: '-y', then
    '-ss <offset>' and '-t <duration>' for an offset and a duration that are
    truthy (so not for 0 or the empty string), the one output option
    '-vf <videoFilters>' with the caller's filters if [opts] has the key,
    and the output '<tmpDir>/palette-<Date.now()>.png', with which the
    promise resolves at the first ['end'] unless an ['error'] comes first. *)
Theorem generatePalette_command g opts w :
  let offset := get_prop (heap w) opts "offset" in
  let duration := get_prop (heap w) opts "duration" in
  let videoFilters :=
    option_or (heap w) opts "videoFilters"
              (VStr "fps=10,scale=320:-1:flags=lanczos,palettegen") in
  let output := to_string E (tmpDir g) +:+ "/palette-" +:+
                pretty (now E (clock_reads w)) +:+ ".png" in
  let command := Run ("-y" :: seek_arguments E offset duration)
                     ["-vf " +:+ to_string E videoFilters] output in
  trace (generatePalette E g opts w).2 =
    trace w ++ [NewCommand (commands w) (sourcePath g) (logger g);
                Start (commands w) command]
  ∧ (generatePalette E g opts w).1 =
    match first_terminal (engine E (commands w) command) with
    | Some End => Resolved (VStr output)
    | Some (Error e) => Rejected e
    | _ => Pending
    end.
Proof.
  intros offset duration videoFilters output command.
  rewrite generatePalette_run; cbn.
  assert (Hcommand : palette_command E g (palette_settings (heap w) opts)
                       (now E (clock_reads w)) = command).
  { unfold palette_command, palette_settings, command.
    rewrite seek_options_arguments, !default_override, !option_or_undefined.
    reflexivity. }
  rewrite Hcommand. split; [done|]. apply palette_events_first.
Qed.

Lemma palette_command_defaults g t :
  palette_command E g palette_defaultOpts t =
  Run ["-y"] ["-vf fps=10,scale=320:-1:flags=lanczos,palettegen"]
      (to_string E (tmpDir g) +:+ "/palette-" +:+ pretty t +:+ ".png").
Proof. reflexivity. Qed.

Lemma gif_named_option h opts :
  gif_named (gif_settings h opts) = truthy (get_prop h opts "fileName").
Proof.
  unfold gif_named, gif_settings.
  by rewrite default_override, option_or_undefined.
Qed.

(** X8.  The palette step of [generateGif] never sees the caller's
    options: whatever [opts] holds ([offset], [duration], [videoFilters]),
    the palette command is run with '-y' alone and the default filters.
    Its timestamp is the second reading of the clock when the file name of
    the gif took the first, and the first when [fileName] is given. *)
Theorem generateGif_palette_ignores_options g opts w :
  let n := commands w in
  let k := clock_reads w in
  let t := now E (if truthy (get_prop (heap w) opts "fileName") then k else S k) in
  ∃ rest,
    trace (generateGif E g opts w).2 =
      trace w ++ [NewCommand n (sourcePath g) (logger g);
                  NewCommand (S n) (sourcePath g) (logger g);
                  Start (S n)
                    (Run ["-y"] ["-vf fps=10,scale=320:-1:flags=lanczos,palettegen"]
                         (to_string E (tmpDir g) +:+ "/palette-" +:+ pretty t +:+ ".png"))]
              ++ rest.
Proof.
  intros n k t. rewrite generateGif_run; cbn.
  unfold gif_clock. rewrite gif_named_option. fold n k t.
  rewrite palette_command_defaults.
  destruct (palette_events _ _ _); cbn.
  - by exists [].
  - eexists. by rewrite <- app_assoc.
  - by exists [].
Qed.

Lemma gif_command_options g h opts t paletteFilePath :
  gif_command E g (gif_settings h opts) t paletteFilePath =
  Run (seek_arguments E (get_prop h opts "offset") (get_prop h opts "duration"))
      ["-i " +:+ to_string E paletteFilePath;
       "-filter_complex fps=" +:+ to_string E (option_or h opts "fps" (VNum (Decimal 75 2)))
       +:+ ",setpts=(1/" +:+ to_string E (option_or h opts "speedMultiplier" (VNum (num 4)))
       +:+ ")*PTS,scale=" +:+ to_string E (option_or h opts "scale" (VNum (num 180)))
       +:+ ":-1:flags=lanczos[x];[x][1:v]paletteuse"]
      (to_string E (thumbnailPath g) +:+ "/" +:+
       (if truthy (get_prop h opts "fileName") then to_string E (get_prop h opts "fileName")
        else "video-" +:+ pretty t +:+ ".gif")).
Proof.
  unfold gif_command, gif_outputOptions, gif_output.
  rewrite gif_named_option, seek_options_arguments. unfold gif_settings.
  rewrite !default_override, !option_or_undefined.
  by destruct (truthy (get_prop h opts "fileName")).
Qed.

(** X9.  The command of the gif step, started once the palette step has
    ended: as input options '-ss' and '-t' for the caller's truthy [offset]
    and [duration]; as output options the palette as second input and one
    filter built from [fps], [speedMultiplier] and [scale] (0.75, 4 and 180
    unless [opts] has the key); as output '<thumbnailPath>/<fileName>', or
    '<thumbnailPath>/video-<Date.now()>.gif' when no truthy [fileName] is
    given. *)
Theorem generateGif_command g opts w :
  let n := commands w in
  let k := clock_reads w in
  let h := heap w in
  let fileName := get_prop h opts "fileName" in
  let palettePath :=
    to_string E (tmpDir g) +:+ "/palette-" +:+
    pretty (now E (if truthy fileName then k else S k)) +:+ ".png" in
  let palette :=
    Run ["-y"] ["-vf fps=10,scale=320:-1:flags=lanczos,palettegen"] palettePath in
  let gif :=
    Run (seek_arguments E (get_prop h opts "offset") (get_prop h opts "duration"))
        ["-i " +:+ palettePath;
         "-filter_complex fps=" +:+ to_string E (option_or h opts "fps" (VNum (Decimal 75 2)))
         +:+ ",setpts=(1/" +:+ to_string E (option_or h opts "speedMultiplier" (VNum (num 4)))
         +:+ ")*PTS,scale=" +:+ to_string E (option_or h opts "scale" (VNum (num 180)))
         +:+ ":-1:flags=lanczos[x];[x][1:v]paletteuse"]
        (to_string E (thumbnailPath g) +:+ "/" +:+
         (if truthy fileName then to_string E fileName
          else "video-" +:+ pretty (now E k) +:+ ".gif")) in
  first_terminal (engine E (S n) palette) = Some End →
  ∃ rest,
    trace (generateGif E g opts w).2 =
      trace w ++ [NewCommand n (sourcePath g) (logger g);
                  NewCommand (S n) (sourcePath g) (logger g);
                  Start (S n) palette; Start n gif] ++ rest.
Proof.
  intros n k h fileName palettePath palette gif Hpalette.
  rewrite generateGif_run; cbn.
  unfold gif_clock. rewrite gif_named_option, palette_command_defaults.
  fold n k h fileName palettePath palette.
  rewrite palette_events_first, Hpalette; cbn.
  rewrite gif_command_options. fold h fileName gif.
  eexists. by rewrite <- app_assoc.
Qed.

Lemma gif_promise_error deletes path output ns e :
  first_terminal ns = Some (Error e) →
  gif_promise E deletes path output Pending ns = Rejected e.
Proof.
  induction ns as [|[fns'| |e'] ns IH]; cbn; try done.
  intros [= ->]. by apply settled_gif_promise.
Qed.

(** X10.  When the palette step ends and the gif step fails without ever
    reporting ['end'], [generateGif] is rejected with the gif step's error
    and [del.sync] is not called: the palette file stays. *)
Theorem generateGif_gif_fails g opts w e :
  let n := commands w in
  let conf := gif_settings (heap w) opts in
  let t := now E (gif_clock conf (clock_reads w)) in
  let palette := palette_command E g palette_defaultOpts t in
  let gif := gif_command E g conf (now E (clock_reads w)) (VStr (palette_output E g t)) in
  first_terminal (engine E (S n) palette) = Some End →
  first_terminal (engine E n gif) = Some (Error e) →
  count_end (engine E n gif) = O →
  (generateGif E g opts w).1 = Rejected e
  ∧ trace (generateGif E g opts w).2 =
    trace w ++ [NewCommand n (sourcePath g) (logger g);
                NewCommand (S n) (sourcePath g) (logger g);
                Start (S n) palette; Start n gif].
Proof.
  intros n conf t palette gif Hpalette Hgif Hends.
  rewrite generateGif_run; cbn. fold n conf t palette.
  rewrite palette_events_first, Hpalette. fold gif. cbn.
  rewrite Hends, gif_promise_error with (e := e) by done.
  split; [done|]. destruct (gif_deletes conf); cbn; by rewrite <- app_assoc.
Qed.

Lemma gif_promise_del_throws path output err ns :
  del_sync E [path] = Some err →
  (∀ e, Error e ∉ ns) →
  gif_promise E true path output Pending ns = Pending.
Proof.
  intros Hdel. induction ns as [|[fns'| |e'] ns IH]; intros Hns; cbn; [done|..].
  - apply IH. intros e He. apply (Hns e). by right.
  - rewrite Hdel. apply IH. intros e He. apply (Hns e). by right.
  - destruct (Hns e'). by left.
Qed.

(** X11.  A failure of the deletion is not passed over: in [complete],
    [resolve] comes after [del.sync], so when the palette is to be deleted
    and [del.sync] throws, the promise of [generateGif] is never resolved.
    With an engine that reports no error it stays pending, after one
    attempted deletion for each ['end']. *)
Theorem generateGif_del_throws g opts w err :
  let n := commands w in
  let conf := gif_settings (heap w) opts in
  let t := now E (gif_clock conf (clock_reads w)) in
  let palette := palette_command E g palette_defaultOpts t in
  let palettePath := VStr (palette_output E g t) in
  let gif := gif_command E g conf (now E (clock_reads w)) palettePath in
  first_terminal (engine E (S n) palette) = Some End →
  option_or (heap w) opts "deletePalette" (VBool true) = VBool true →
  del_sync E [palettePath] = Some err →
  (∀ e, Error e ∉ engine E n gif) →
  (generateGif E g opts w).1 = Pending
  ∧ trace (generateGif E g opts w).2 =
    trace w ++ [NewCommand n (sourcePath g) (logger g);
                NewCommand (S n) (sourcePath g) (logger g);
                Start (S n) palette; Start n gif]
            ++ replicate (count_end (engine E n gif)) (Del [palettePath] true).
Proof.
  intros n conf t palette palettePath gif Hpalette Hflag Hdel Hquiet.
  assert (Hdeletes : gif_deletes conf = true).
  { unfold gif_deletes, conf, gif_settings. rewrite default_override.
    change (default VUndef (gif_defaultOpts !! "deletePalette")) with (VBool true).
    by rewrite Hflag. }
  rewrite generateGif_run; cbn. fold n conf t palette.
  rewrite palette_events_first, Hpalette. fold palettePath gif. cbn.
  rewrite Hdeletes, (gif_promise_del_throws _ _ err) by done.
  split; [done|]. by rewrite <- app_assoc.
Qed.

(** X12.  There is no timeout: while the palette step reports neither
    ['end'] nor ['error'], [generateGif] stays pending and its own command,
    made at the start, is never run. *)
Theorem generateGif_palette_pending g opts w :
  let n := commands w in
  let conf := gif_settings (heap w) opts in
  let palette :=
    palette_command E g palette_defaultOpts (now E (gif_clock conf (clock_reads w))) in
  first_terminal (engine E (S n) palette) = None →
  (generateGif E g opts w).1 = Pending
  ∧ trace (generateGif E g opts w).2 =
    trace w ++ [NewCommand n (sourcePath g) (logger g);
                NewCommand (S n) (sourcePath g) (logger g);
                Start (S n) palette].
Proof.
  intros n conf palette Hpalette.
  rewrite generateGif_run; cbn. fold n conf palette.
  by rewrite palette_events_first, Hpalette.
Qed.

(** ** More on the callback twins *)

Lemma then_callback_throws f result e w :
  c_callable (cell_at (heap w) f) = true →
  completion E f [VNull; result] = Some e →
  then_callback E (VRef f) (Resolved result) w =
  (tt, World (heap w) (trace w ++ [Call f [VNull; result]; Call f [e]])
             (clock_reads w) (commands w)).
Proof.
  intros Hf Hthrows. unfold then_callback, call.
  unfold mbind, M_bind, mret, M_ret, get_heap, log; cbn.
  rewrite Hf; cbn. rewrite Hthrows. cbn [heap]. rewrite Hf; cbn.
  by rewrite <- app_assoc.
Qed.

(** X13.  A completion function that throws when it is handed the result is
    called a second time, by the [catch] of the same chain, with what it
    threw as the error. *)
Theorem callback_called_again g p opts cb f w :
  js_or cb opts = VRef f →
  c_callable (cell_at (heap w) f) = true →
  (∀ result e,
     (generateOneByPercent E g p opts w).1 = Resolved result →
     completion E f [VNull; result] = Some e →
     trace (generateOneByPercentCb E g p opts cb w).2 =
     trace (generateOneByPercent E g p opts w).2 ++ [Call f [VNull; result]; Call f [e]])
  ∧ (∀ result e,
     (generate E g opts w).1 = Resolved result →
     completion E f [VNull; result] = Some e →
     trace (generateCb E g opts cb w).2 =
     trace (generate E g opts w).2 ++ [Call f [VNull; result]; Call f [e]])
  ∧ (∀ result e,
     (generatePalette E g opts w).1 = Resolved result →
     completion E f [VNull; result] = Some e →
     trace (generatePaletteCb E g opts cb w).2 =
     trace (generatePalette E g opts w).2 ++ [Call f [VNull; result]; Call f [e]])
  ∧ (∀ result e,
     (generateGif E g opts w).1 = Resolved result →
     completion E f [VNull; result] = Some e →
     trace (generateGifCb E g opts cb w).2 =
     trace (generateGif E g opts w).2 ++ [Call f [VNull; result]; Call f [e]]).
Proof.
  intros Hcb Hf.
  unfold generateOneByPercentCb, generateCb, generatePaletteCb, generateGifCb.
  rewrite Hcb. unfold mbind, M_bind.
  split_and!; intros result e.
  - pose proof (generateOneByPercent_callable E g p opts w f Hf) as Hf'.
    destruct (generateOneByPercent E g p opts w) as [pr w']; cbn.
    intros -> Hthrows. by rewrite (then_callback_throws f result e).
  - pose proof (generate_callable E g opts w f Hf) as Hf'.
    destruct (generate E g opts w) as [pr w']; cbn.
    intros -> Hthrows. by rewrite (then_callback_throws f result e).
  - pose proof (generatePalette_callable E g opts w f Hf) as Hf'.
    destruct (generatePalette E g opts w) as [pr w']; cbn.
    intros -> Hthrows. by rewrite (then_callback_throws f result e).
  - pose proof (generateGif_callable E g opts w f Hf) as Hf'.
    destruct (generateGif E g opts w) as [pr w']; cbn.
    intros -> Hthrows. by rewrite (then_callback_throws f result e).
Qed.

Lemma then_callback_heap callback p w :
  heap (then_callback E callback p w).2 = heap w.
Proof.
  unfold then_callback, call.
  unfold mbind, M_bind, mret, M_ret, get_heap, log.
  destruct p as [|result|e], callback as [| | | | | | |l]; cbn; try done;
    destruct (c_callable (cell_at (heap w) l)); cbn; try done;
    destruct (completion E l _); cbn; try done;
    destruct (c_callable (cell_at (heap w) l)); done.
Qed.

Lemma generateOneByPercent_opts_cell g p l c w :
  num_ltb p (num 0) || num_ltb (num 100) p = false →
  heap w !! l = Some c →
  heap (generateOneByPercent E g p (VRef l) w).2 !! l =
  Some (Cell (one_timestamp p ∪ c_props c) (c_callable c)).
Proof.
  intros Hguard Hl.
  destruct (generateOneByPercent_run E g p (VRef l) w Hguard) as (merged & w1 & Hmerge & ->).
  destruct w as [h t k n]; cbn in Hl.
  destruct (assign_into_opts h t k n (one_timestamp p) (VRef l))
    as (lm & h' & Hrun & _ & Hin & _).
  rewrite Hrun in Hmerge. injection Hmerge as <- <-.
  destruct (Hin l c eq_refl Hl) as [-> Hl'].
  rewrite generate_run; cbn. by apply lookup_insert_fresh.
Qed.

(** X15.  [generateOneByPercentCb(percent, cb)], called without options,
    passes the completion function on as [opts]: with a percent in [0,100]
    the function object itself receives the properties [count] and
    [timestamps], and stays a function. *)
Theorem generateOneByPercentCb_marks_callback g p f props w :
  percent_in_range p →
  heap w !! f = Some (Cell props true) →
  heap (generateOneByPercentCb E g p (VRef f) VUndef w).2 !! f =
  Some (Cell (<["count" := VNum (num 1)]>
               (<["timestamps" := VArr [VStr (num_to_string p +:+ "%")]]> props))
             true).
Proof.
  intros Hp Hf. unfold generateOneByPercentCb, mbind, M_bind.
  pose proof (generateOneByPercent_opts_cell g p f _ w (guard_in_range p Hp) Hf) as Hcell.
  destruct (generateOneByPercent E g p (VRef f) w) as [pr w']; cbn in *.
  rewrite then_callback_heap, Hcell. do 2 f_equal.
  unfold one_timestamp. by rewrite <- insert_union_l, <- insert_union_singleton_l.
Qed.

(** X16.  Every command object is made for the source and with the logger
    the constructor stored: [opts.sourcePath], and [opts.logger] or [null]. *)
Theorem command_objects_configured h o g opts w :
  constructor E h o = Return g →
  let made id :=
    NewCommand id (get_prop h o "sourcePath") (js_or (get_prop h o "logger") VNull) in
  (∃ rest, trace (generate E g opts w).2 = trace w ++ made (commands w) :: rest)
  ∧ (∃ rest, trace (generatePalette E g opts w).2 = trace w ++ made (commands w) :: rest)
  ∧ (∃ rest, trace (generateGif E g opts w).2 =
             trace w ++ made (commands w) :: made (S (commands w)) :: rest).
Proof.
  intros Hg made. unfold constructor in Hg. destruct (nullish o); [done|].
  injection Hg as <-.
  rewrite generate_run, generatePalette_run, generateGif_run; cbn.
  split_and!; [by eexists..|].
  destruct (palette_events _ _ _); cbn; eexists; by rewrite <- ?app_assoc.
Qed.

Lemma not_function_insert h l props v :
  is_function h v = false → is_function (<[l := Cell props false]> h) v = false.
Proof.
  destruct v as [| | | | | | |l']; try done. cbn. unfold cell_at.
  rewrite lookup_insert. by case_decide.
Qed.

Lemma to_object_not_function object w v :
  is_function (heap w) v = false →
  is_function (heap (to_object object w).2) v = false.
Proof.
  intros Hv. destruct object; try done; by apply not_function_insert.
Qed.

Lemma set_props_not_function l f w v :
  is_function (heap w) v = false →
  is_function (heap (set_props l f w).2) v = false.
Proof.
  destruct v as [| | | | | | |l']; try done. cbn. unfold cell_at.
  intros Hv. rewrite lookup_insert. by case_decide; subst.
Qed.

Lemma assignIn_not_function object source w v :
  is_function (heap w) v = false →
  is_function (heap (assignIn object source w).2) v = false.
Proof.
  intros Hv. apply (to_object_not_function object) in Hv.
  unfold assignIn, mbind, M_bind, mret, M_ret, get_heap.
  destruct (to_object object w) as [l w1]; cbn in *.
  destruct (truthy source); [|done].
  match goal with
  | |- context [set_props l ?f w1] =>
      apply (set_props_not_function l f w1) in Hv; by destruct (set_props l f w1)
  end.
Qed.

Lemma generate_not_function g opts w v :
  is_function (heap w) v = false →
  is_function (heap (generate E g opts w).2) v = false.
Proof. intros Hv. rewrite generate_run; cbn. by apply not_function_insert. Qed.

Lemma generateOneByPercent_not_function g p opts w v :
  is_function (heap w) v = false →
  is_function (heap (generateOneByPercent E g p opts w).2) v = false.
Proof.
  intros Hv.
  destruct (num_ltb p (num 0) || num_ltb (num 100) p) eqn:Hguard.
  - unfold generateOneByPercent. by rewrite Hguard.
  - destruct (generateOneByPercent_run E g p opts w Hguard) as (merged & w1 & Hmerge & ->).
    apply generate_not_function.
    unfold mbind, M_bind, new_object, alloc, mret, M_ret in Hmerge; cbn in Hmerge.
    apply (f_equal snd) in Hmerge; cbn in Hmerge. rewrite <- Hmerge.
    apply assignIn_not_function; cbn. by apply not_function_insert.
Qed.

Lemma then_callback_not_function callback p w :
  is_function (heap w) callback = false →
  then_callback E callback p w = (tt, w).
Proof.
  intros Hcb. unfold then_callback, call.
  unfold mbind, M_bind, mret, M_ret, get_heap.
  destruct p as [|result|e], callback as [| | | | | | |l]; cbn in *; try done;
    by rewrite ?Hcb.
Qed.

(** X14.  When neither [cb] nor [opts] is a function, a twin runs its
    operation and calls nothing: the result, or the error, is lost. *)
Theorem callback_missing g p opts cb w :
  is_function (heap w) (js_or cb opts) = false →
  generateOneByPercentCb E g p opts cb w = (tt, (generateOneByPercent E g p opts w).2)
  ∧ generateCb E g opts cb w = (tt, (generate E g opts w).2)
  ∧ generatePaletteCb E g opts cb w = (tt, (generatePalette E g opts w).2)
  ∧ generateGifCb E g opts cb w = (tt, (generateGif E g opts w).2).
Proof.
  intros Hcb.
  unfold generateOneByPercentCb, generateCb, generatePaletteCb, generateGifCb.
  unfold mbind, M_bind.
  split_and!.
  - pose proof (generateOneByPercent_not_function g p opts w _ Hcb) as Hcb'.
    destruct (generateOneByPercent E g p opts w) as [pr w'].
    by apply then_callback_not_function.
  - pose proof (generate_not_function g opts w _ Hcb) as Hcb'.
    destruct (generate E g opts w) as [pr w'].
    by apply then_callback_not_function.
  - assert (Hcb' : is_function (heap (generatePalette E g opts w).2) (js_or cb opts) = false).
    { rewrite generatePalette_run; cbn. by apply not_function_insert. }
    destruct (generatePalette E g opts w) as [pr w'].
    by apply then_callback_not_function.
  - assert (Hcb' : is_function (heap (generateGif E g opts w).2) (js_or cb opts) = false).
    { rewrite generateGif_heap. by do 2 apply not_function_insert. }
    destruct (generateGif E g opts w) as [pr w'].
    by apply then_callback_not_function.
Qed.

(** ** Palette files *)

Lemma append_length s1 s2 :
  String.length (s1 +:+ s2) = (String.length s1 + String.length s2)%nat.
Proof.
  induction s1 as [|a s1 IH]; [done|].
  change (S (String.length (s1 +:+ s2)) = S (String.length s1 + String.length s2)).
  by rewrite IH.
Qed.

Lemma append_cancel_r s1 s2 suffix : s1 +:+ suffix = s2 +:+ suffix → s1 = s2.
Proof.
  revert s2. induction s1 as [|a s1 IH]; intros [|b s2] Heq; [done|..].
  - apply (f_equal String.length) in Heq.
    change (String.length suffix = S (String.length (s2 +:+ suffix))) in Heq.
    rewrite append_length in Heq. lia.
  - apply (f_equal String.length) in Heq.
    change (S (String.length (s1 +:+ suffix)) = String.length suffix) in Heq.
    rewrite append_length in Heq. lia.
  - injection Heq as -> Heq. f_equal. by apply IH.
Qed.

Lemma palette_output_inj g t1 t2 :
  palette_output E g t1 = palette_output E g t2 → t1 = t2.
Proof.
  unfold palette_output. intros Heq.
  do 2 apply String.app_inj in Heq.
  apply append_cancel_r in Heq. by apply (inj pretty).
Qed.

Lemma palette_events_resolved output ns v :
  palette_events output Pending ns = Resolved v → v = VStr output.
Proof.
  rewrite palette_events_first.
  destruct (first_terminal ns) as [[| |]|]; naive_solver.
Qed.

(** X17.  The name of a palette file depends on the clock alone: of two
    calls to [generatePalette], one after the other, the second resolves
    with the path of the first exactly when [Date.now()] gave both the same
    reading, and then it overwrites that file (the command has '-y'). *)
Theorem generatePalette_paths_collide g opts1 opts2 w path1 path2 :
  (generatePalette E g opts1 w).1 = Resolved path1 →
  (generatePalette E g opts2 (generatePalette E g opts1 w).2).1 = Resolved path2 →
  path1 = path2 ↔ now E (clock_reads w) = now E (S (clock_reads w)).
Proof.
  rewrite !generatePalette_run; cbn.
  intros ->%palette_events_resolved ->%palette_events_resolved.
  split.
  - intros [= Heq]. by apply (palette_output_inj g).
  - by intros ->.
Qed.

End MoreOperations.

(** ** The sample worlds, run further *)

Lemma operations_keep_objects_sample :
  heap (generate sample_env sample_generator (VRef 2%positive) sample_world).2 !! 2%positive =
  Some (Cell {[ "count" := VNum (num 7); "folder" := VStr "/elsewhere" ]} false).
Proof.
  destruct (operations_keep_objects sample_env sample_generator (VRef 2%positive)
              sample_world 2%positive
              (Cell {[ "count" := VNum (num 7); "folder" := VStr "/elsewhere" ]} false))
    as (Hgenerate & _ & _).
  - vm_compute. reflexivity.
  - exact Hgenerate.
Defined.

Lemma generate_settles_once_sample :
  (generate sample_env sample_generator VUndef sample_world).1 =
  Resolved (VArr [VStr "a.png"; VStr "b.png"]).
Proof.
  destruct (generate_settles_once sample_env sample_generator VUndef sample_world
              [Filenames [VStr "a.png"; VStr "b.png"]] [])
    as (Hend & _ & _).
  - reflexivity.
  - apply Hend. reflexivity.
Defined.

Lemma generateOneByPercent_passes_options_sample :
  ∃ settings,
    trace (generateOneByPercent sample_env sample_generator (num 50) (VRef 2%positive)
             sample_world).2 =
      [NewCommand 0 (VStr "/videos/in.mp4") VNull; Start 0 (Screenshots settings)]
    ∧ settings !! "folder" = Some (VStr "/elsewhere")
    ∧ settings !! "filename" = Some (VStr "%b-thumbnail-%r-%000i").
Proof.
  destruct (generateOneByPercent_passes_options sample_env sample_generator (num 50)
              (VRef 2%positive) sample_world)
    as (settings & Htrace & Hkeys).
  - split; vm_compute; discriminate.
  - exists settings. split_and!; [exact Htrace|..].
    + apply (Hkeys "folder"); discriminate.
    + apply (Hkeys "filename"); discriminate.
Defined.

Lemma generateOneByPercent_settles_sample :
  (generateOneByPercent failing_env sample_generator (num 50) VUndef sample_world).1 =
  Rejected (VError "Error" "ffmpeg exited with code 1").
Proof.
  destruct (generateOneByPercent_settles failing_env sample_generator (num 50) VUndef
              sample_world)
    as (_ & Herror & _).
  - split; vm_compute; discriminate.
  - apply Herror. reflexivity.
Defined.

Lemma generateGif_command_sample :
  ∃ rest,
    trace (generateGif sample_env sample_generator (VRef 5%positive) clip_world).2 =
      [NewCommand 0 (VStr "/videos/in.mp4") VNull;
       NewCommand 1 (VStr "/videos/in.mp4") VNull;
       Start 1 (Run ["-y"] ["-vf fps=10,scale=320:-1:flags=lanczos,palettegen"]
                    "/tmp/palette-1700000000000.png");
       Start 0 (Run ["-ss 00:00:05"; "-t 3"]
                    ["-i /tmp/palette-1700000000000.png";
                     "-filter_complex fps=0.75,setpts=(1/4)*PTS,scale=180:-1:flags=lanczos[x];[x][1:v]paletteuse"]
                    "/out/clip.gif")] ++ rest.
Proof.
  apply (generateGif_command sample_env sample_generator (VRef 5%positive) clip_world).
  reflexivity.
Defined.

Lemma generateGif_gif_fails_sample :
  (generateGif gif_failing_env sample_generator VUndef sample_world).1 =
    Rejected (VError "Error" "gif failed")
  ∧ trace (generateGif gif_failing_env sample_generator VUndef sample_world).2 =
    [NewCommand 0 (VStr "/videos/in.mp4") VNull;
     NewCommand 1 (VStr "/videos/in.mp4") VNull;
     Start 1 (Run ["-y"] ["-vf fps=10,scale=320:-1:flags=lanczos,palettegen"]
                  "/tmp/palette-1700000000001.png");
     Start 0 (Run []
                  ["-i /tmp/palette-1700000000001.png";
                   "-filter_complex fps=0.75,setpts=(1/4)*PTS,scale=180:-1:flags=lanczos[x];[x][1:v]paletteuse"]
                  "/out/video-1700000000000.gif")].
Proof.
  apply (generateGif_gif_fails gif_failing_env sample_generator VUndef sample_world);
    reflexivity.
Defined.

Lemma generateGif_del_throws_sample :
  (generateGif del_throwing_env sample_generator VUndef sample_world).1 = Pending
  ∧ trace (generateGif del_throwing_env sample_generator VUndef sample_world).2 =
    [NewCommand 0 (VStr "/videos/in.mp4") VNull;
     NewCommand 1 (VStr "/videos/in.mp4") VNull;
     Start 1 (Run ["-y"] ["-vf fps=10,scale=320:-1:flags=lanczos,palettegen"]
                  "/tmp/palette-1700000000001.png");
     Start 0 (Run []
                  ["-i /tmp/palette-1700000000001.png";
                   "-filter_complex fps=0.75,setpts=(1/4)*PTS,scale=180:-1:flags=lanczos[x];[x][1:v]paletteuse"]
                  "/out/video-1700000000000.gif");
     Del [VStr "/tmp/palette-1700000000001.png"] true].
Proof.
  apply (generateGif_del_throws del_throwing_env sample_generator VUndef sample_world
           (VError "Error" "EPERM: operation not permitted")); try reflexivity.
  intros e He.
  repeat (apply elem_of_cons in He as [He|He]; [discriminate|]).
  by apply elem_of_nil in He.
Defined.

Lemma generateGif_palette_pending_sample :
  (generateGif silent_env sample_generator VUndef sample_world).1 = Pending
  ∧ trace (generateGif silent_env sample_generator VUndef sample_world).2 =
    [NewCommand 0 (VStr "/videos/in.mp4") VNull;
     NewCommand 1 (VStr "/videos/in.mp4") VNull;
     Start 1 (Run ["-y"] ["-vf fps=10,scale=320:-1:flags=lanczos,palettegen"]
                  "/tmp/palette-1700000000001.png")].
Proof.
  apply (generateGif_palette_pending silent_env sample_generator VUndef sample_world).
  reflexivity.
Defined.

Lemma callback_called_again_sample :
  trace (generateCb callback_throwing_env sample_generator VUndef (VRef 3%positive)
           sample_world).2 =
  trace (generate callback_throwing_env sample_generator VUndef sample_world).2 ++
  [Call 3%positive [VNull; VArr [VStr "a.png"; VStr "b.png"]];
   Call 3%positive [VError "Error" "boom"]].
Proof.
  destruct (callback_called_again callback_throwing_env sample_generator (num 50) VUndef
              (VRef 3%positive) 3%positive sample_world)
    as (_ & Hgenerate & _ & _); [reflexivity..|].
  apply Hgenerate; reflexivity.
Defined.

Lemma callback_missing_sample :
  generateCb sample_env sample_generator (VRef 2%positive) VUndef sample_world =
  (tt, (generate sample_env sample_generator (VRef 2%positive) sample_world).2).
Proof.
  destruct (callback_missing sample_env sample_generator (num 50) (VRef 2%positive) VUndef
              sample_world)
    as (_ & Hgenerate & _ & _).
  - reflexivity.
  - exact Hgenerate.
Defined.

Lemma generateOneByPercentCb_marks_callback_sample :
  heap (generateOneByPercentCb sample_env sample_generator (Decimal 1 7) (VRef 3%positive)
          VUndef sample_world).2 !! 3%positive =
    Some (Cell {[ "count" := VNum (num 1); "timestamps" := VArr [VStr "1e-7%"] ]} true)
  ∧ heap (generateOneByPercentCb sample_env sample_generator (Decimal 125 1) (VRef 3%positive)
            VUndef sample_world).2 !! 3%positive =
    Some (Cell {[ "count" := VNum (num 1); "timestamps" := VArr [VStr "12.5%"] ]} true).
Proof.
  split.
  - apply (generateOneByPercentCb_marks_callback sample_env sample_generator (Decimal 1 7)
             3%positive ∅ sample_world).
    + split; vm_compute; discriminate.
    + vm_compute. reflexivity.
  - apply (generateOneByPercentCb_marks_callback sample_env sample_generator (Decimal 125 1)
             3%positive ∅ sample_world).
    + split; vm_compute; discriminate.
    + vm_compute. reflexivity.
Defined.

Lemma command_objects_configured_sample :
  ∃ rest,
    trace (generateGif sample_env sample_generator VUndef sample_world).2 =
    [] ++ NewCommand 0 (VStr "/videos/in.mp4") VNull ::
          NewCommand 1 (VStr "/videos/in.mp4") VNull :: rest.
Proof.
  destruct (command_objects_configured sample_env sample_heap (VRef 1%positive)
              sample_generator VUndef sample_world)
    as (_ & _ & Hgif).
  - vm_compute. reflexivity.
  - exact Hgif.
Defined.

Lemma generatePalette_paths_collide_sample :
  VStr "/tmp/palette-1700000000000.png" = VStr "/tmp/palette-1700000000001.png"
  ↔ 1700000000000 = 1700000000001.
Proof.
  apply (generatePalette_paths_collide sample_env sample_generator VUndef VUndef
           sample_world); reflexivity.
Defined.
